(** * research-podcast-generator: a shallow embedding of [app.py]

    The web handler [generate_podcast], the script generator
    [generate_podcast_script] and the PDF / URL extractors of [app.py] are
    embedded as Rocq functions.  Everything the program obtains from the
    outside (the uploaded bytes, the LLM, the TTS service, HTTP downloads,
    uuids, the clock) is read from a [World] of oracles; everything it does
    to the outside is recorded in an event log carried by the state. *)

From Stdlib Require Import String Ascii List NArith Arith Bool Lia.
From Stdlib.Strings Require Import Byte.
Import ListNotations.

Local Open Scope nat_scope.
Local Open Scope list_scope.

(** ** Python values used by the program *)

(** A Python [str] is a sequence of Unicode code points; [len] counts code
    points and slicing cuts between them. *)
Abbreviation char := N.
Abbreviation str := (list char).
Abbreviation bytes := (list byte).

(** String literals of the source, written as Rocq strings. *)
Definition lit (s : string) : str :=
  map N_of_ascii (list_ascii_of_string s).
Arguments lit s%_string.

Definition char_eqb (a b : char) : bool := N.eqb a b.

Fixpoint str_eqb (a b : str) : bool :=
  match a, b with
  | [], [] => true
  | x :: a', y :: b' => char_eqb x y && str_eqb a' b'
  | _, _ => false
  end.

(** Truthiness of a [str] and of an [Optional[str]]: [not s]. *)
Definition truthy (s : str) : bool :=
  match s with [] => false | _ :: _ => true end.

Definition truthy_opt (o : option str) : bool :=
  match o with None => false | Some s => truthy s end.

(** [s[i:j]] for [0 <= i] and [0 <= j]: indices past the end are clamped. *)
Definition slice {A : Type} (s : list A) (i j : nat) : list A :=
  skipn i (firstn j s).

(** [s.startswith(p)] and [s.endswith(p)]. *)
Fixpoint startswith (s p : str) : bool :=
  match p, s with
  | [], _ => true
  | c :: p', d :: s' => char_eqb c d && startswith s' p'
  | _ :: _, [] => false
  end.

Definition endswith (s p : str) : bool := startswith (rev s) (rev p).

(** [p in s] for strings: substring test. *)
Fixpoint contains (s p : str) : bool :=
  startswith s p ||
  match s with
  | [] => false
  | _ :: s' => contains s' p
  end.

(** [str.lower], code point by code point.  Only the ASCII letters are
    mapped: the program lowers a name only to test it against ['.pdf'], and
    no code point outside [A-Z] lowers to one of ['.'], ['p'], ['d'], ['f']. *)
Definition lower_char (c : char) : char :=
  if ((65 <=? c) && (c <=? 90))%N then (c + 32)%N else c.

Definition lower (s : str) : str := map lower_char s.

(** [str.isspace] on one code point (CPython's [_PyUnicode_IsWhitespace]). *)
Definition isspace (c : char) : bool :=
  (((9 <=? c) && (c <=? 13)) || ((28 <=? c) && (c <=? 32))
   || (c =? 133) || (c =? 160) || (c =? 5760)
   || ((8192 <=? c) && (c <=? 8202))
   || (c =? 8232) || (c =? 8233) || (c =? 8239) || (c =? 8287)
   || (c =? 12288))%N.

Fixpoint lstrip (s : str) : str :=
  match s with
  | [] => []
  | c :: s' => if isspace c then lstrip s' else s
  end.

Definition rstrip (s : str) : str := rev (lstrip (rev s)).

(** [s.strip()] *)
Definition strip (s : str) : str := rstrip (lstrip s).

(** [sep.join(xs)] *)
Fixpoint join (sep : str) (xs : list str) : str :=
  match xs with
  | [] => []
  | [x] => x
  | x :: xs' => x ++ sep ++ join sep xs'
  end.

(** [range(start, stop, step)] for [step >= 1].  At most [stop - start]
    numbers are produced, which bounds the recursion. *)
Fixpoint range_from (fuel start stop step : nat) : list nat :=
  match fuel with
  | O => []
  | S fuel' =>
      if start <? stop
      then start :: range_from fuel' (start + step) stop step
      else []
  end.

Definition range (start stop step : nat) : list nat :=
  range_from (stop - start) start stop step.

(** ** Chunking of the script (app.py, lines 311-313) *)

Definition max_chunk_length : nat := 3000.

(** [[s[i:i+n] for i in range(0, len(s), n)]] *)
Definition chunks_of (n : nat) (s : str) : list str :=
  map (fun i => slice s i (i + n)) (range 0 (length s) n).

Definition chunks (podcast_script : str) : list str :=
  chunks_of max_chunk_length podcast_script.

(** [ceil(a / b)] on naturals. *)
Definition ceil_div (a b : nat) : nat := (a + b - 1) / b.

(** ** The outside world *)

Inductive exn := Exception (msg : str).

(** A page of an opened document: [page.get_text()] returns or raises. *)
Inductive page := Page (text : str) | BrokenPage (e : exn).

(** The shapes a Gemini response can have.  [None] in a field means that
    [hasattr] is false for that attribute. *)
Record part := { part_text : option str }.
Record content := { content_parts : option (list part) }.
Record candidate := { candidate_content : option content }.
Record response := {
  response_text : option str;
  response_parts : option (list part);
  response_candidates : option (list candidate)
}.

(** What an attempt gets from [model.generate_content]: an exception (raised
    by the call or while the result is inspected, which the same [try] block
    catches), or a response. *)
Inductive llm_result := LlmRaises (e : exn) | LlmReturns (r : response).

(** What [requests.get] gives back. *)
Record http_response := {
  status_code : nat;
  content_type : str;      (* headers.get('content-type', '') *)
  http_content : bytes;    (* .content *)
  http_text : str          (* .text *)
}.

Inductive http_result := HttpRaises (e : exn) | HttpReturns (r : http_response).

(** What [client.text_to_speech.generate] gives back: it raises, or returns
    a falsy value ([None]), or an object that may carry [audio_file]. *)
Record tts_response := { audio_file : option str }.

Inductive tts_result := TtsRaises (e : exn) | TtsReturns (r : option tts_response).

Record World := {
  uuid4 : nat -> str;                           (* str(uuid.uuid4()), k-th call *)
  strftime_now : str;                           (* datetime.now().strftime(...) *)
  tmp_stem : str;                               (* NamedTemporaryFile name, without its suffix *)
  buffer_size : nat;                            (* io.DEFAULT_BUFFER_SIZE *)
  unflushed : bytes -> nat;                     (* of a write longer than the buffer: the bytes still buffered *)
  fitz_open : bytes -> option (list page);      (* None: fitz.open raises *)
  requests_get : str -> http_result;
  soup_get_text : str -> str;                   (* visible text, script/style removed *)
  generate_content : nat -> str -> llm_result;  (* attempt number, prompt *)
  murf_client : option str;                     (* the client's api key; None: no client *)
  tts_generate : nat -> str -> tts_result       (* chunk number, chunk *)
}.

(** What the program does to the outside, in order.  [ExtractedPdf] marks a
    call of [extract_text_from_pdf], [AskedLLM] a call of
    [model.generate_content], [AskedTTS] a call of
    [client.text_to_speech.generate], [Fetched] a call of [requests.get]. *)
Inductive event :=
  | Saved (path : str)
  | Removed (path : str)
  | ExtractedPdf (path : str)
  | Fetched (url : str)
  | AskedLLM (attempt : nat) (prompt : str)
  | Slept (seconds : nat)
  | WroteScript (path : str) (script : str)
  | AskedTTS (i : nat) (chunk : str)
  | WroteAudio (path : str) (data : bytes).

(** The files the program reads back ([file.save], temporary files,
    [os.remove]), the event log, the number of uuids drawn, and the handler's
    local variable [audio_url], which outlives the [try] block that assigns it. *)
Record state := {
  fs : list (str * bytes);
  log : list event;
  uuids : nat;
  audio_url : option str
}.

Definition initial (files : list (str * bytes)) : state :=
  {| fs := files; log := []; uuids := 0; audio_url := None |}.

(** ** Control flow: values, exceptions and early [return] *)

Inductive outcome (R A : Type) :=
  | Val (a : A)       (* the statement ran to its end *)
  | Exc (e : exn)     (* an exception is propagating *)
  | Ret (r : R).      (* the enclosing function is returning [r] *)
Arguments Val {R A} a.
Arguments Exc {R A} e.
Arguments Ret {R A} r.

Definition M (R A : Type) : Type := state -> outcome R A * state.

Definition ret {R A} (a : A) : M R A := fun st => (Val a, st).
Definition raise {R A} (e : exn) : M R A := fun st => (Exc e, st).
Definition return_ {R A} (r : R) : M R A := fun st => (Ret r, st).

Definition bind {R A B} (m : M R A) (k : A -> M R B) : M R B :=
  fun st =>
    match m st with
    | (Val a, st') => k a st'
    | (Exc e, st') => (Exc e, st')
    | (Ret r, st') => (Ret r, st')
    end.

Notation "x <- m ;; k" := (bind m (fun x => k))
  (at level 61, m at next level, right associativity).
Notation "m ;; k" := (bind m (fun _ => k))
  (at level 61, right associativity).

(** [try: body except Exception as e: handler e]; a [return] in the body
    passes through. *)
Definition try_except {R A} (body : M R A) (handler : exn -> M R A) : M R A :=
  fun st =>
    match body st with
    | (Exc e, st') => handler e st'
    | other => other
    end.

(** A function body run by its caller: its [return] becomes the value. *)
Definition call {R A} (body : M A A) : M R A :=
  fun st =>
    match body st with
    | (Val a, st') => (Val a, st')
    | (Ret a, st') => (Val a, st')
    | (Exc e, st') => (Exc e, st')
    end.

Definition when {R} (b : bool) (m : M R unit) : M R unit :=
  if b then m else ret tt.

Inductive loop_ctl := Continue | Break.

(** [for x in xs: body x], where the body may [break]. *)
Fixpoint for_each {R I} (xs : list I) (body : I -> M R loop_ctl) : M R unit :=
  match xs with
  | [] => ret tt
  | x :: xs' =>
      c <- body x ;;
      match c with
      | Continue => for_each xs' body
      | Break => ret tt
      end
  end.

(** [for x in xs: acc = body x acc] *)
Fixpoint fold_for {R I A} (xs : list I) (acc : A) (body : I -> A -> M R A) : M R A :=
  match xs with
  | [] => ret acc
  | x :: xs' => acc' <- body x acc ;; fold_for xs' acc' body
  end.

Definition enumerate {A} (xs : list A) : list (nat * A) :=
  combine (seq 0 (length xs)) xs.

(** *** Primitive effects *)

Definition emit {R} (e : event) : M R unit :=
  fun st => (Val tt, {| fs := fs st; log := log st ++ [e];
                        uuids := uuids st; audio_url := audio_url st |}).

Definition set_fs {R} (files : list (str * bytes)) : M R unit :=
  fun st => (Val tt, {| fs := files; log := log st;
                        uuids := uuids st; audio_url := audio_url st |}).

Definition get_fs {R} : M R (list (str * bytes)) :=
  fun st => (Val (fs st), st).

Definition set_audio_url {R} (u : option str) : M R unit :=
  fun st => (Val tt, {| fs := fs st; log := log st;
                        uuids := uuids st; audio_url := u |}).

Definition get_audio_url {R} : M R (option str) :=
  fun st => (Val (audio_url st), st).

Fixpoint lookup (files : list (str * bytes)) (path : str) : option bytes :=
  match files with
  | [] => None
  | (p, b) :: rest => if str_eqb p path then Some b else lookup rest path
  end.

Fixpoint delete (files : list (str * bytes)) (path : str) : list (str * bytes) :=
  match files with
  | [] => []
  | (p, b) :: rest =>
      if str_eqb p path then delete rest path else (p, b) :: delete rest path
  end.

(** [os.path.join(folder, name)] for a relative [name]. *)
Definition path_join (folder name : str) : str := folder ++ lit "/" ++ name.

Definition UPLOAD_FOLDER : str := lit "uploads".
Definition AUDIO_FOLDER : str := lit "static/audio".

(** ** Requests and replies of [POST /generate] *)

Record upload := { filename : str; data : bytes }.

(** [request.get_json()]: it raises (or does not yield a dict), or yields a
    dict whose ['source'] entry is read with [data.get('source')]. *)
Inductive json_body := Unusable (e : exn) | Object (source : option str).

Record request := {
  content_length : N;            (* the Content-Length of the request *)
  files_file : option upload;    (* request.files['file'] when 'file' in request.files *)
  is_json : bool;
  get_json : json_body
}.

(** [app.config['MAX_CONTENT_LENGTH']] (line 39) *)
Definition MAX_CONTENT_LENGTH : N := 16 * 1024 * 1024.

Inductive jval := JNull | JString (s : str).

(** A dict passed to [jsonify], in the order it is written. *)
Abbreviation json := (list (string * jval)).

(** What the view returns: the body and the HTTP status. *)
Abbreviation reply := (json * nat)%type.

Definition field (k : string) (v : jval) : string * jval := (k, v).
Arguments field k%_string v.

Fixpoint json_get (d : json) (k : string) : option jval :=
  match d with
  | [] => None
  | (k', v) :: rest => if String.eqb k' k then Some v else json_get rest k
  end.
Arguments json_get d k%_string.

Definition jstr_or_null (o : option str) : jval :=
  match o with Some s => JString s | None => JNull end.

(** Past an [if not x: return ...] check an [Optional[str]] is a [str]. *)
Definition unwrap (o : option str) : str :=
  match o with Some s => s | None => [] end.

(** ** The program *)

Section Program.

Variable w : World.

(** *** [extract_text_from_pdf] (lines 82-115) *)

Definition os_path_exists {R} (path : str) : M R bool :=
  files <- get_fs ;;
  ret (match lookup files path with Some _ => true | None => false end).

Definition fitz_open_path {R} (path : str) : M R (list page) :=
  files <- get_fs ;;
  match lookup files path with
  | Some b =>
      match fitz_open w b with
      | Some pages => ret pages
      | None => raise (Exception (lit "cannot open document"))
      end
  | None => raise (Exception (lit "no such file"))
  end.

Definition get_text {R} (p : page) : M R str :=
  match p with
  | Page t => ret t
  | BrokenPage e => raise e
  end.

(** The body of [for page in doc: text += page.get_text()]. *)
Definition add_page_text {R} (page : page) (text : str) : M R str :=
  t <- get_text page ;; ret (text ++ t).

(** The [magic] check of lines 96-104 only prints and is left out. *)
Definition extract_text_from_pdf {R} (pdf_path : str) : M R (option str) :=
  call (
    emit (ExtractedPdf pdf_path) ;;
    try_except
      (ex <- os_path_exists pdf_path ;;
       when (negb ex) (return_ None) ;;
       when (negb (endswith (lower pdf_path) (lit ".pdf"))) (return_ None) ;;
       doc <- fitz_open_path pdf_path ;;
       text <- fold_for doc [] add_page_text ;;
       return_ (Some text))
      (fun _ => return_ None)).

(** *** [extract_text_from_url] (lines 117-137) *)

Definition http_get {R} (url : str) : M R http_response :=
  emit (Fetched url) ;;
  match requests_get w url with
  | HttpRaises e => raise e
  | HttpReturns r => ret r
  end.

(** What [fitz] finds in a temporary file that is read before it is
    closed: a write of at most [buffer_size] bytes is still in the buffer
    and the file is empty; of a longer write, all but the last [unflushed]
    bytes have reached the file. *)
Definition on_disk_before_close (b : bytes) : bytes :=
  if length b <=? buffer_size w then []
  else firstn (length b - unflushed w b) b.

(** Line 127 calls the extractor inside the [with] block, before the
    temporary file is closed; leaving the block closes it, which flushes the
    buffer. *)
Definition extract_text_from_url {R} (url : str) : M R (option str) :=
  call (
    try_except
      (response <- http_get url ;;
       if contains (content_type response) (lit "application/pdf") then
         let tmp_name := tmp_stem w ++ lit ".pdf" in
         files <- get_fs ;;
         set_fs ((tmp_name, on_disk_before_close (http_content response))
                 :: delete files tmp_name) ;;
         t <- extract_text_from_pdf tmp_name ;;
         set_fs ((tmp_name, http_content response) :: delete files tmp_name) ;;
         return_ t
       else
         return_ (Some (soup_get_text w (http_text response))))
      (fun _ => return_ None)).

(** *** [generate_podcast_script] (lines 139-230) *)

Definition nl : str := [10%N].

Definition prompt (text : str) : str :=
  lit "You are a professional podcast host. Transform the following research paper "
  ++ lit "into an engaging, conversational podcast script. The script should be "
  ++ lit "informative but accessible to a technical audience." ++ nl ++ nl
  ++ lit "Structure your response with these sections:" ++ nl
  ++ lit "1. [Engaging introduction that hooks the listener]" ++ nl
  ++ lit "2. [Key findings and their significance]" ++ nl
  ++ lit "3. [Methodology overview - simplified]" ++ nl
  ++ lit "4. [Results and their implications]" ++ nl
  ++ lit "5. [Thought-provoking conclusion]" ++ nl ++ nl
  ++ lit "Make it sound natural and engaging, as if it's being presented by an expert host."
  ++ nl ++ nl
  ++ lit "Here's the research paper content:" ++ nl
  ++ slice text 0 (N.to_nat 15000).

(** [[part.text for part in parts if hasattr(part, 'text')]] *)
Definition parts_text (ps : list part) : list str :=
  flat_map (fun p => match part_text p with Some t => [t] | None => [] end) ps.

(** The loop over [response.candidates] (lines 189-194). *)
Fixpoint first_candidate (cs : list candidate) : option str :=
  match cs with
  | [] => None
  | c :: cs' =>
      match candidate_content c with
      | Some ct =>
          match content_parts ct with
          | Some ps =>
              match parts_text ps with
              | [] => first_candidate cs'
              | parts => Some (join (lit " ") parts)
              end
          | None => first_candidate cs'
          end
      | None => first_candidate cs'
      end
  end.

(** Lines 177-194: [Some v] when the attempt executes [return v], [None]
    when it falls through to "Unexpected response format". *)
Definition handle_response (r : response) : option str :=
  match response_text r with
  | Some t => Some t
  | None =>
      match
        match response_parts r with
        | Some ps =>
            match parts_text ps with
            | [] => None
            | parts => Some (join (lit " ") parts)
            end
        | None => None
        end
      with
      | Some v => Some v
      | None =>
          match response_candidates r with
          | Some cs => first_candidate cs
          | None => None
          end
      end
  end.

Definition max_retries : nat := 3.

Definition model_generate_content {R} (attempt : nat) (prompt_parts : str)
  : M R response :=
  emit (AskedLLM attempt prompt_parts) ;;
  match generate_content w attempt prompt_parts with
  | LlmRaises e => raise e
  | LlmReturns r => ret r
  end.

Definition time_sleep {R} (seconds : nat) : M R unit := emit (Slept seconds).

(** One turn of the retry loop (lines 168-221).  [last_error] only feeds a
    printed message and is left out. *)
Definition attempt_body (prompt_parts : str) (attempt : nat)
  : M (option str) loop_ctl :=
  try_except
    (response <- model_generate_content attempt prompt_parts ;;
     match handle_response response with
     | Some v => return_ (Some v)
     | None => ret tt
     end ;;
     when (attempt <? max_retries - 1) (time_sleep (2 ^ attempt)) ;;
     ret Continue)
    (fun _ =>
       if attempt =? max_retries - 1 then ret Break
       else time_sleep (2 ^ attempt) ;; ret Continue).

Definition generate_podcast_script {R} (text : str) : M R (option str) :=
  call (
    when (negb (truthy text) || negb (truthy (strip text))) (return_ None) ;;
    try_except
      (let prompt_parts := prompt text in
       for_each (range 0 max_retries 1) (attempt_body prompt_parts) ;;
       return_ None)
      (fun _ => return_ None)).

(** *** [generate_podcast] (lines 240-374) *)

Definition new_uuid {R} : M R str :=
  fun st => (Val (uuid4 w (uuids st)),
             {| fs := fs st; log := log st;
                uuids := S (uuids st); audio_url := audio_url st |}).

Definition file_save {R} (file : upload) (path : str) : M R unit :=
  files <- get_fs ;;
  set_fs ((path, data file) :: delete files path) ;;
  emit (Saved path).

Definition os_remove {R} (path : str) : M R unit :=
  files <- get_fs ;;
  set_fs (delete files path) ;;
  emit (Removed path).

(** [request.files]: parsing a body longer than [MAX_CONTENT_LENGTH] raises
    (413 Request Entity Too Large). *)
Definition request_files {R} (req : request) : M R (option upload) :=
  if (MAX_CONTENT_LENGTH <? content_length req)%N
  then raise (Exception (lit "413 Request Entity Too Large"))
  else ret (files_file req).

(** Lines 247-274, once [request.files] has been parsed. *)
Definition read_parts (req : request) (files : option upload)
  : M reply (option str) :=
  match files with
  | Some file =>
      when (str_eqb (filename file) (lit ""))
        (return_ ([field "error" (JString (lit "No selected file"))], 400)) ;;
      if truthy (filename file) && endswith (lower (filename file)) (lit ".pdf")
      then
        u <- new_uuid ;;
        let filename := u ++ lit ".pdf" in
        let filepath := path_join UPLOAD_FOLDER filename in
        file_save file filepath ;;
        paper_text <- extract_text_from_pdf filepath ;;
        os_remove filepath ;;
        ret paper_text
      else
        return_ ([field "error"
                    (JString (lit "Invalid file type. Please upload a PDF."))], 400)
  | None =>
      if is_json req then
        match get_json req with
        | Unusable e => raise e
        | Object url =>
            when (negb (truthy_opt url))
              (return_ ([field "error" (JString (lit "No URL provided"))], 400)) ;;
            extract_text_from_url (unwrap url)
        end
      else ret None
  end.

(** Lines 244-274: the value of [paper_text] when line 277 is reached. *)
Definition read_source (req : request) : M reply (option str) :=
  files <- request_files req ;;
  read_parts req files.

(** One turn of the loop over the chunks (lines 318-341).  Building the
    [Murf] client from the api key has no effect of its own and is left out. *)
Definition speak_chunk (ic : nat * str) (all_audio_data : bytes) : M reply bytes :=
  let '(i, chunk) := ic in
  emit (AskedTTS i chunk) ;;
  response <- match tts_generate w i chunk with
              | TtsRaises e => raise e
              | TtsReturns r => ret r
              end ;;
  match response with
  | Some r =>
      if truthy_opt (audio_file r) then
        set_audio_url (audio_file r) ;;
        audio_response <- http_get (unwrap (audio_file r)) ;;
        if status_code audio_response =? 200
        then ret (all_audio_data ++ http_content audio_response)
        else ret all_audio_data
      else ret all_audio_data
  | None => ret all_audio_data
  end.

(** Lines 304-362: the [try] block around speech synthesis. *)
Definition synthesize (podcast_script : str) : M reply unit :=
  try_except
    (let timestamp := strftime_now w in
     let audio_filename := lit "podcast_" ++ timestamp ++ lit ".mp3" in
     let audio_path := path_join AUDIO_FOLDER audio_filename in
     let chunks := chunks podcast_script in
     all_audio_data <- fold_for (enumerate chunks) [] speak_chunk ;;
     when (match all_audio_data with [] => true | _ => false end)
       (return_ ([field "status" (JString (lit "success"));
                  field "script" (JString podcast_script);
                  field "audio_url" JNull;
                  field "warning" (JString (lit
                    "Failed to generate audio. The text might be too long or contain unsupported characters."))],
                 200)) ;;
     emit (WroteAudio audio_path all_audio_data) ;;
     set_audio_url (Some (lit "/static/audio/" ++ audio_filename)))
    (fun _ => ret tt).

(** Lines 293-368: from [audio_url = None] to the final [return]. *)
Definition speech (podcast_script : str) : M reply reply :=
  set_audio_url None ;;
  when (match murf_client w with None => true | Some _ => false end)
    (return_ ([field "status" (JString (lit "success"));
               field "script" (JString podcast_script);
               field "audio_url" JNull;
               field "warning" (JString (lit "Text-to-speech service not available"))],
              200)) ;;
  synthesize podcast_script ;;
  audio_url <- get_audio_url ;;
  return_ ([field "status" (JString (lit "success"));
            field "script" (JString podcast_script);
            field "audio_url" (jstr_or_null audio_url)],
           200).

(** A code point that [str.encode('utf-8')] refuses: a surrogate. *)
Definition is_surrogate (c : char) : bool :=
  ((55296 <=? c) && (c <=? 57343))%N.

(** Lines 290-291: the script is written as UTF-8.  A script that cannot be
    encoded raises at [f.write], after the file has been created. *)
Definition write_script {R} (path : str) (podcast_script : str) : M R unit :=
  if existsb is_surrogate podcast_script
  then emit (WroteScript path []) ;;
       raise (Exception (lit "UnicodeEncodeError"))
  else emit (WroteScript path podcast_script).

(** Lines 276-368: what the handler does once [paper_text] is known. *)
Definition respond (paper_text : option str) : M reply reply :=
  when (negb (truthy_opt paper_text))
    (return_ ([field "error"
                 (JString (lit "Could not extract text from the source."))], 400)) ;;
  podcast_script <- generate_podcast_script (unwrap paper_text) ;;
  when (negb (truthy_opt podcast_script))
    (return_ ([field "error"
                 (JString (lit "Failed to generate podcast script"))], 500)) ;;
  let podcast_script := unwrap podcast_script in
  script_id <- new_uuid ;;
  let script_path := path_join UPLOAD_FOLDER (script_id ++ lit ".txt") in
  write_script script_path podcast_script ;;
  speech podcast_script.

Definition generate_podcast {R} (req : request) : M R reply :=
  call (
    try_except
      (paper_text <- read_source req ;;
       respond paper_text)
      (fun _ =>
         return_ ([field "error"
                     (JString (lit "An internal server error occurred."))], 500))).

End Program.

(** ** Observations on a run *)

(** The backoff sleeps recorded in a log, in order. *)
Definition sleeps (l : list event) : list nat :=
  flat_map (fun e => match e with Slept s => [s] | _ => [] end) l.

Definition total (l : list nat) : nat := fold_right Nat.add 0 l.

(** An attempt fails when the call raises or its response has none of the
    recognised shapes. *)
Definition attempt_fails (r : llm_result) : bool :=
  match r with
  | LlmRaises _ => true
  | LlmReturns resp =>
      match handle_response resp with Some _ => false | None => true end
  end.


(** The state after the events [evs] have been appended to its log. *)
Definition logged (st : state) (evs : list event) : state :=
  {| fs := fs st; log := log st ++ evs;
     uuids := uuids st; audio_url := audio_url st |}.

(** The backoff sleeps of one call of the script generator. *)
Definition backoff_sleeps (w : World) (text : str) : list nat :=
  sleeps (log (snd (generate_podcast_script (R := reply) w text (initial [])))).

(** The four ways the retry loop of [generate_podcast_script] can run on the
    prompt [p]: an answer at the first, second or third attempt, or three
    failed attempts. *)
Inductive retry_run (w : World) (p : str) (st : state)
  : outcome (option str) unit * state -> Prop :=
  | run_first r s :
      generate_content w 0 p = LlmReturns r ->
      handle_response r = Some s ->
      retry_run w p st (Ret (Some s), logged st [AskedLLM 0 p])
  | run_second r s :
      attempt_fails (generate_content w 0 p) = true ->
      generate_content w 1 p = LlmReturns r ->
      handle_response r = Some s ->
      retry_run w p st
        (Ret (Some s), logged st [AskedLLM 0 p; Slept 1; AskedLLM 1 p])
  | run_third r s :
      attempt_fails (generate_content w 0 p) = true ->
      attempt_fails (generate_content w 1 p) = true ->
      generate_content w 2 p = LlmReturns r ->
      handle_response r = Some s ->
      retry_run w p st
        (Ret (Some s),
         logged st [AskedLLM 0 p; Slept 1; AskedLLM 1 p; Slept 2; AskedLLM 2 p])
  | run_exhausted :
      attempt_fails (generate_content w 0 p) = true ->
      attempt_fails (generate_content w 1 p) = true ->
      attempt_fails (generate_content w 2 p) = true ->
      retry_run w p st
        (Val tt,
         logged st [AskedLLM 0 p; Slept 1; AskedLLM 1 p; Slept 2; AskedLLM 2 p]).

(** The body of the request does not exceed [MAX_CONTENT_LENGTH]. *)
Definition within_limit (req : request) : bool :=
  (content_length req <=? MAX_CONTENT_LENGTH)%N.

(** ** Response normalization as the specification words it

    The shapes are tried in a fixed order: the direct text field, the list
    of parts, the nested candidate / content / parts.  The first shape that
    yields text gives the result; a list of part texts is concatenated with
    single spaces in between. *)

Definition space : char := 32%N.

(** The first text, then every further text preceded by one space. *)
Definition spaced (texts : list str) : str :=
  match texts with
  | [] => []
  | t :: rest => t ++ flat_map (fun u => space :: u) rest
  end.

(** The texts of the parts that carry one, in the order of the parts. *)
Fixpoint texts_of_parts (ps : list part) : list str :=
  match ps with
  | [] => []
  | {| part_text := Some t |} :: rest => t :: texts_of_parts rest
  | {| part_text := None |} :: rest => texts_of_parts rest
  end.

(** A list shape yields text when at least one part carries a text. *)
Definition list_shape (parts : option (list part)) : option str :=
  match parts with
  | Some ps =>
      match texts_of_parts ps with
      | [] => None
      | texts => Some (spaced texts)
      end
  | None => None
  end.

Definition nested_shape (c : candidate) : option str :=
  match candidate_content c with
  | Some ct => list_shape (content_parts ct)
  | None => None
  end.

(** The first of several readings that yields something. *)
Fixpoint first_yield (readings : list (option str)) : option str :=
  match readings with
  | [] => None
  | Some v :: _ => Some v
  | None :: rest => first_yield rest
  end.

Definition normalize_by_shapes (r : response) : option str :=
  first_yield
    [ response_text r;
      list_shape (response_parts r);
      match response_candidates r with
      | Some cs => first_yield (map nested_shape cs)
      | None => None
      end ].

(** ** Example worlds and requests *)

Definition timed_out : exn := Exception (lit "timed out").

Definition world_of
  (fitz : bytes -> option (list page))
  (llm : nat -> str -> llm_result)
  (client : option str)
  (tts : nat -> str -> tts_result)
  (get : str -> http_result) : World :=
  {| uuid4 := fun k => lit "id" ++ [(48 + N.of_nat k)%N];
     strftime_now := lit "20240101_120000";
     tmp_stem := lit "/tmp/tmpa1";
     buffer_size := N.to_nat 8192;
     unflushed := fun _ => 0;
     fitz_open := fitz;
     requests_get := get;
     soup_get_text := fun html => html;
     generate_content := llm;
     murf_client := client;
     tts_generate := tts |}.

Definition answer (s : str) : response :=
  {| response_text := Some s; response_parts := None;
     response_candidates := None |}.

Definition shapeless : response :=
  {| response_text := None; response_parts := None;
     response_candidates := None |}.

Definition the_script : str := lit "Welcome to the show.".

(** Raises, then answers without any recognised shape, then answers. *)
Definition flaky_llm (attempt : nat) (_ : str) : llm_result :=
  match attempt with
  | 0 => LlmRaises timed_out
  | 1 => LlmReturns shapeless
  | _ => LlmReturns (answer the_script)
  end.


Definition failing_llm (_ : nat) (_ : str) : llm_result := LlmRaises timed_out.
Definition steady_llm (_ : nat) (_ : str) : llm_result :=
  LlmReturns (answer the_script).

Definition one_page (t : str) (_ : bytes) : option (list page) := Some [Page t].
Definition two_pages (_ : bytes) : option (list page) :=
  Some [Page (lit "Hello World "); Page (lit "research findings")].

Definition no_tts (_ : nat) (_ : str) : tts_result := TtsRaises timed_out.
Definition offline (_ : str) : http_result := HttpRaises timed_out.

Definition murf_url : str := lit "https://murf.example/audio/1.mp3".
Definition rendering_tts (_ : nat) (_ : str) : tts_result :=
  TtsReturns (Some {| audio_file := Some murf_url |}).

Definition online (_ : str) : http_result :=
  HttpReturns {| status_code := 200; content_type := lit "audio/mpeg";
                 http_content := [x49; x44; x33]; http_text := [] |}.

Definition not_found (_ : str) : http_result :=
  HttpReturns {| status_code := 404; content_type := lit "text/plain";
                 http_content := [x6e; x6f]; http_text := lit "no" |}.

(** Everything works. *)
Definition happy_world : World :=
  world_of two_pages steady_llm (Some (lit "key")) rendering_tts online.

(** Every chunk is rendered, every download answers 404. *)
Definition not_found_world : World :=
  world_of two_pages steady_llm (Some (lit "key")) rendering_tts not_found.


Definition flaky_world : World :=
  world_of two_pages flaky_llm None no_tts offline.
Definition failing_world : World :=
  world_of two_pages failing_llm None no_tts offline.
Definition script_only_world : World :=
  world_of two_pages steady_llm None no_tts offline.
Definition blank_page_world : World :=
  world_of (one_page (lit "   ")) steady_llm None no_tts offline.

(** The TTS service raises on the first chunk. *)
Definition tts_raises_world : World :=
  world_of two_pages steady_llm (Some (lit "key")) no_tts offline.

(** The TTS service renders the chunk, the download of the audio raises. *)
Definition download_raises_world : World :=
  world_of two_pages steady_llm (Some (lit "key")) rendering_tts offline.

Definition upload_request (name : str) : request :=
  {| content_length := 2048;
     files_file := Some {| filename := name; data := [] |};
     is_json := false;
     get_json := Unusable (Exception (lit "not json")) |}.

Definition form_request : request :=
  {| content_length := 64; files_file := None; is_json := false;
     get_json := Unusable (Exception (lit "not json")) |}.

(** A form post without a file part, one byte over the limit. *)
Definition oversize_form_request : request :=
  {| content_length := 16777217; files_file := None; is_json := false;
     get_json := Unusable (Exception (lit "not json")) |}.

(** An upload of [notes.txt], one byte over the limit. *)
Definition oversize_upload_request : request :=
  {| content_length := 16777217;
     files_file := Some {| filename := lit "notes.txt"; data := [] |};
     is_json := false;
     get_json := Unusable (Exception (lit "not json")) |}.

Definition paper_on_disk : state :=
  initial [(lit "papers/paper.pdf", [])].

(** Chunk [i] gives no audio bytes and nothing raises: the service returns
    nothing usable, or the download comes back with a status other than 200
    or with an empty body. *)
Definition yields_no_audio (w : World) (i : nat) (chunk : str) : Prop :=
  match tts_generate w i chunk with
  | TtsRaises _ => False
  | TtsReturns None => True
  | TtsReturns (Some r) =>
      truthy_opt (audio_file r) = false
      \/ exists resp,
           requests_get w (unwrap (audio_file r)) = HttpReturns resp
           /\ (status_code resp <> 200 \/ http_content resp = [])
  end.

(** The runs that the statements below look at. *)
Definition download_raises_run : outcome reply reply * state :=
  generate_podcast download_raises_world (upload_request (lit "paper.pdf"))
    (initial []).

Definition uppercase_upload_run : outcome reply reply * state :=
  generate_podcast script_only_world (upload_request (lit "A.PDF")) (initial []).

Definition after_blank_upload : state :=
  snd (read_source blank_page_world (upload_request (lit "paper.pdf"))
         (initial [])).

(** ** [utils/audio_utils.py] and the start-up of [app.py] *)

Module AudioUtils.

(** [response.audio_file] as this module reads it: a file-like object whose
    [read()] returns bytes or raises. *)
Inductive audio_stream := Stream (data : bytes) | BrokenStream (e : exn).

(** What [client.text_to_speech.generate] gives back.  [None] in
    [audio_file]: the attribute is missing or falsy. *)
Record sdk_response := { audio_file : option audio_stream }.

Inductive sdk_result := SdkRaises (e : exn) | SdkReturns (r : sdk_response).

(** What the module finds around it. *)
Record Host := {
  MURF_AVAILABLE : bool;                       (* the murf package imports *)
  PYDUB_AVAILABLE : bool;                      (* the pydub package imports *)
  Murf : str -> option exn;                    (* Murf(api_key=...): None, or the exception raised *)
  generate : str -> str -> str -> sdk_result;  (* text, voice_id, format *)
  str_lower : str -> str;                      (* str.lower *)
  mkstemp : option str;                        (* NamedTemporaryFile name without suffix; None: it raises *)
  can_open : str -> bool;                      (* open(path, 'wb') succeeds *)
  from_file : bytes -> bool;                   (* AudioSegment.from_file succeeds *)
  play : bytes -> bool;                        (* play(audio) succeeds *)
  can_unlink : str -> bool                     (* os.unlink(path) succeeds *)
}.

(** [os.getenv] for the names the program reads. *)
Record Env := {
  MURF_API_KEY : option str;
  MURFAI_API_KEY : option str;
  GEMINI_API_KEY : option str
}.

(** [a or b] *)
Definition or_ (a b : option str) : option str :=
  if truthy_opt a then a else b.

(** The attributes of a [MurfAIClient].  [last_audio_data] is [None] until
    [create_tts_job] sets the attribute. *)
Record MurfAIClient := {
  api_key : str;
  last_audio_data : option bytes
}.

Definition ImportError : exn :=
  Exception (lit "murf package is not installed. Please install it with: pip install murf").
Definition ValueError : exn :=
  Exception (lit "Murf.ai API key is required. Set MURF_API_KEY in .env file.").

(** [MurfAIClient.__init__] (lines 39-53) *)
Definition init (host : Host) (env : Env) (api_key : option str)
  : exn + MurfAIClient :=
  if negb (MURF_AVAILABLE host) then inl ImportError
  else
    let key := or_ (or_ api_key (MURF_API_KEY env)) (MURFAI_API_KEY env) in
    if negb (truthy_opt key) then inl ValueError
    else
      match Murf host (unwrap key) with
      | Some e => inl e
      | None => inr {| api_key := unwrap key; last_audio_data := None |}
      end.

Definition direct_audio : str := lit "direct_audio".

(** [create_tts_job] (lines 55-95): the client afterwards and the job id. *)
Definition create_tts_job (host : Host) (self : MurfAIClient)
  (text voice_id format : str) : MurfAIClient * option str :=
  if negb (MURF_AVAILABLE host) then (self, None)
  else
    let text := if N.to_nat 5000 <? length text
                then slice text 0 (N.to_nat 5000) else text in
    match generate host text voice_id format with
    | SdkRaises _ => (self, None)
    | SdkReturns response =>
        match audio_file response with
        | Some (Stream d) =>
            ({| api_key := api_key self; last_audio_data := Some d |},
             Some direct_audio)
        | Some (BrokenStream _) => (self, None)
        | None => (self, None)
        end
    end.

(** [job_id == "direct_audio" and hasattr(self, 'last_audio_data') and
    self.last_audio_data] *)
Definition has_audio (self : MurfAIClient) (job_id : str) : bool :=
  str_eqb job_id direct_audio
  && match last_audio_data self with
     | Some d => match d with [] => false | _ :: _ => true end
     | None => false
     end.

(** [get_job_status] (lines 97-112): the status dict and the status. *)
Definition get_job_status (self : MurfAIClient) (job_id : str)
  : option (list (string * str)) * str :=
  if has_audio self job_id
  then (Some [("status"%string, lit "completed")], lit "completed")
  else (None, lit "failed").

Record job := {
  job_status : str;
  audio_data : bytes;
  download_url : option str
}.

(** [wait_for_job_completion] (lines 114-134) *)
Definition wait_for_job_completion (self : MurfAIClient) (job_id : str)
  (poll_interval max_attempts : nat) : option job :=
  if has_audio self job_id
  then Some {| job_status := lit "completed";
               audio_data := match last_audio_data self with
                             | Some d => d
                             | None => []
                             end;
               download_url := None |}
  else None.

(** [text_to_speech] (lines 136-175): [(audio_data, audio_url)]. *)
Definition text_to_speech (host : Host) (self : MurfAIClient)
  (text voice_id output_format : str) : option bytes * option str :=
  if negb (MURF_AVAILABLE host) then (None, None)
  else
    match generate host text voice_id (str_lower host output_format) with
    | SdkRaises _ => (None, None)
    | SdkReturns response =>
        match audio_file response with
        | Some (Stream d) => (Some d, None)
        | Some (BrokenStream _) => (None, None)
        | None => (None, None)
        end
    end.

(** The argument of [save_audio]: bytes, or a file-like object. *)
Inductive audio_arg := Raw (b : bytes) | FileLike (s : audio_stream).

Definition write (files : list (str * bytes)) (path : str) (b : bytes)
  : list (str * bytes) :=
  (path, b) :: delete files path.

(** The [with open(...) as f: f.write(...)] of [save_audio]: the file is
    created (or emptied) when it is opened, before the data is read. *)
Definition write_audio (files : list (str * bytes)) (path : str)
  (audio_data : audio_arg) : list (str * bytes) * option str :=
  match audio_data with
  | Raw b => (write files path b, Some path)
  | FileLike (Stream b) => (write files path b, Some path)
  | FileLike (BrokenStream _) => (write files path [], None)
  end.

(** [save_audio] (lines 177-208): the files afterwards and the path. *)
Definition save_audio (host : Host) (files : list (str * bytes))
  (audio_data : audio_arg) (output_path : option str)
  : list (str * bytes) * option str :=
  match output_path with
  | None =>
      match mkstemp host with
      | Some stem => write_audio files (stem ++ lit ".mp3") audio_data
      | None => (files, None)
      end
  | Some path =>
      if can_open host path then write_audio files path audio_data
      else (files, None)
  end.

(** [play_audio] (lines 210-246): the files afterwards, and whether the
    audio was played to its end. *)
Definition play_audio (host : Host) (files : list (str * bytes))
  (audio_data : bytes) : list (str * bytes) * bool :=
  match audio_data with
  | [] => (files, false)
  | _ :: _ =>
      if negb (PYDUB_AVAILABLE host) then (files, false)
      else
        match mkstemp host with
        | None => (files, false)
        | Some stem =>
            let temp_path := stem ++ lit ".mp3" in
            let files1 := write files temp_path audio_data in
            let played := from_file host audio_data && play host audio_data in
            (* finally *)
            if truthy temp_path
               && match lookup files1 temp_path with
                  | Some _ => true
                  | None => false
                  end
            then
              if can_unlink host temp_path
              then (delete files1 temp_path, played)
              else (files1, played)
            else (files1, played)
        end
  end.

(** [from murf import Murf] without the package. *)
Definition ModuleNotFoundError : exn :=
  Exception (lit "No module named 'murf'").
Definition MissingGeminiKey : exn :=
  Exception (lit
    "Please set the GEMINI_API_KEY environment variable in .env file").

(** The start of [app.py]: the unguarded import of line 15, then lines
    45-58.  The result is the module-level [murf_client], or the exception
    that ends the import of the module. *)
Definition startup (host : Host) (env : Env) : exn + option MurfAIClient :=
  if negb (MURF_AVAILABLE host) then inl ModuleNotFoundError
  else
    let murf_client :=
      match init host env None with
      | inr client => Some client
      | inl _ => None
      end in
    if negb (truthy_opt (GEMINI_API_KEY env))
    then inl MissingGeminiKey
    else inr murf_client.

(** Example hosts and environments. *)
Definition echo (text _ _ : str) : sdk_result :=
  SdkReturns {| audio_file := Some (Stream (map (fun _ => x41) text)) |}.

Definition mute (_ _ _ : str) : sdk_result :=
  SdkReturns {| audio_file := Some (Stream []) |}.

(** An SDK that raises on every text of more than 5000 characters. *)
Definition picky (text voice_id format : str) : sdk_result :=
  if N.to_nat 5000 <? length text then SdkRaises (Exception (lit "too long"))
  else echo text voice_id format.

Definition host_of (available : bool) (sdk : str -> str -> str -> sdk_result)
  : Host :=
  {| MURF_AVAILABLE := available; PYDUB_AVAILABLE := true;
     Murf := fun _ => None; generate := sdk; str_lower := lower;
     mkstemp := Some (lit "/tmp/tmpq7"); can_open := fun _ => true;
     from_file := fun _ => false; play := fun _ => true;
     can_unlink := fun _ => true |}.

Definition env_of (murf murfai gemini : option str) : Env :=
  {| MURF_API_KEY := murf; MURFAI_API_KEY := murfai; GEMINI_API_KEY := gemini |}.

Definition fresh_client : MurfAIClient :=
  {| api_key := lit "key"; last_audio_data := None |}.

End AudioUtils.

(** ** Further observations *)

(** The text of a document: the page texts in page order, when every page
    can be read. *)
Fixpoint pages_text (pages : list page) : option str :=
  match pages with
  | [] => Some []
  | Page t :: rest =>
      match pages_text rest with
      | Some u => Some (t ++ u)
      | None => None
      end
  | BrokenPage _ :: _ => None
  end.

(** What [fitz] makes of the bytes of a file. *)
Definition document_text (w : World) (b : bytes) : option str :=
  match fitz_open w b with
  | Some pages => pages_text pages
  | None => None
  end.

(** Where the handler stores the next upload, and where the URL extractor
    stores a downloaded PDF. *)
Definition upload_path (w : World) (st : state) : str :=
  path_join UPLOAD_FOLDER (uuid4 w (uuids st) ++ lit ".pdf").

Definition tmp_path (w : World) : str := tmp_stem w ++ lit ".pdf".

(** The state after an accepted upload has been saved, read and removed. *)
Definition after_upload (w : World) (st : state) : state :=
  {| fs := delete (fs st) (upload_path w st);
     log := log st ++ [Saved (upload_path w st);
                       ExtractedPdf (upload_path w st);
                       Removed (upload_path w st)];
     uuids := S (uuids st);
     audio_url := audio_url st |}.

(** The state after a PDF has been downloaded from [url] and read. *)
Definition after_pdf_download (w : World) (url : str) (b : bytes) (st : state)
  : state :=
  {| fs := (tmp_path w, b) :: delete (fs st) (tmp_path w);
     log := log st ++ [Fetched url; ExtractedPdf (tmp_path w)];
     uuids := uuids st;
     audio_url := audio_url st |}.

(** The replies the view can give. *)
Inductive reply_shape : reply -> Prop :=
  | shape_client_error msg :
      reply_shape ([field "error" (JString msg)], 400)
  | shape_server_error msg :
      reply_shape ([field "error" (JString msg)], 500)
  | shape_script_only script warning :
      truthy script = true ->
      reply_shape ([field "status" (JString (lit "success"));
                    field "script" (JString script);
                    field "audio_url" JNull;
                    field "warning" (JString warning)], 200)
  | shape_success script url :
      truthy script = true ->
      reply_shape ([field "status" (JString (lit "success"));
                    field "script" (JString script);
                    field "audio_url" (jstr_or_null url)], 200).

(** What one chunk contributes to the audio: [None] when the TTS call or the
    download raises, otherwise the downloaded bytes, or no bytes when nothing
    was rendered or the download did not answer 200. *)
Definition chunk_audio (w : World) (i : nat) (chunk : str) : option bytes :=
  match tts_generate w i chunk with
  | TtsRaises _ => None
  | TtsReturns None => Some []
  | TtsReturns (Some r) =>
      if truthy_opt (audio_file r) then
        match requests_get w (unwrap (audio_file r)) with
        | HttpRaises _ => None
        | HttpReturns resp =>
            Some (if status_code resp =? 200 then http_content resp else [])
        end
      else Some []
  end.

(** Observations on a log: the calls of the LLM, the chunks sent to the TTS
    service, the audio files written. *)
Definition llm_calls (l : list event) : list nat :=
  flat_map (fun e => match e with AskedLLM a _ => [a] | _ => [] end) l.

Definition tts_requests (l : list event) : list (nat * str) :=
  flat_map (fun e => match e with AskedTTS i c => [(i, c)] | _ => [] end) l.

Definition audio_writes (l : list event) : list (str * bytes) :=
  flat_map (fun e => match e with WroteAudio p d => [(p, d)] | _ => [] end) l.

Definition audio_path (w : World) : str :=
  path_join AUDIO_FOLDER (lit "podcast_" ++ strftime_now w ++ lit ".mp3").

Definition served_audio_url (w : World) : str :=
  lit "/static/audio/" ++ lit "podcast_" ++ strftime_now w ++ lit ".mp3".

(** More example worlds and requests. *)
Definition json_request (source : option str) : request :=
  {| content_length := 256; files_file := None; is_json := true;
     get_json := Object source |}.

Definition broken_json_request : request :=
  {| content_length := 256; files_file := None; is_json := true;
     get_json := Unusable (Exception (lit "400 Bad Request")) |}.

Definition html_page (_ : str) : http_result :=
  HttpReturns {| status_code := 404; content_type := lit "text/html";
                 http_content := []; http_text := lit "Not Found" |}.

Definition pdf_link (_ : str) : http_result :=
  HttpReturns {| status_code := 200;
                 content_type := lit "application/pdf; qs=0.001";
                 http_content := [x25; x50; x44; x46]; http_text := [] |}.

Definition html_world : World :=
  world_of two_pages steady_llm None no_tts html_page.
Definition pdf_link_world : World :=
  world_of two_pages steady_llm None no_tts pdf_link.


Definition scanned_pdf_world : World :=
  world_of (one_page []) steady_llm None no_tts offline.

Definition empty_answer_llm (_ : nat) (_ : str) : llm_result :=
  LlmReturns (answer []).
Definition empty_answer_world : World :=
  world_of two_pages empty_answer_llm None no_tts offline.

(** A text of 15000 letters followed by [tail]. *)
Definition long_text (tail : str) : str :=
  repeat 97%N (N.to_nat 15000) ++ tail.

(** The state after chunk [i] has been handled by the loop of the speech
    synthesizer: the TTS service was asked, and when it rendered the chunk
    its URL went into [audio_url] and was fetched. *)
Definition after_chunk (w : World) (i : nat) (chunk : str) (st : state) : state :=
  match tts_generate w i chunk with
  | TtsReturns (Some r) =>
      if truthy_opt (audio_file r) then
        {| fs := fs st;
           log := log st ++ [AskedTTS i chunk; Fetched (unwrap (audio_file r))];
           uuids := uuids st;
           audio_url := audio_file r |}
      else logged st [AskedTTS i chunk]
  | _ => logged st [AskedTTS i chunk]
  end.

(** What the chunks of a script contribute, chunk by chunk. *)
Definition contributions (w : World) (podcast_script : str) : list (option bytes) :=
  map (fun ic => chunk_audio w (fst ic) (snd ic)) (enumerate (chunks podcast_script)).

Definition raised (o : option bytes) : bool :=
  match o with None => true | Some _ => false end.

Definition nonempty {A : Type} (l : list A) : bool :=
  match l with [] => false | _ :: _ => true end.

(** The state when the handler has reset its local [audio_url] (line 293). *)
Definition without_audio_url (st : state) : state :=
  {| fs := fs st; log := log st; uuids := uuids st; audio_url := None |}.

(** The success reply without a warning. *)
Definition success_reply (podcast_script : str) (url : option str) : reply :=
  ([field "status" (JString (lit "success"));
    field "script" (JString podcast_script);
    field "audio_url" (jstr_or_null url)], 200).

(** The success reply that carries a warning; its [audio_url] is null. *)
Definition warning_reply (podcast_script warning : str) : reply :=
  ([field "status" (JString (lit "success"));
    field "script" (JString podcast_script);
    field "audio_url" JNull;
    field "warning" (JString warning)], 200).

Definition no_audio_warning : str :=
  lit "Failed to generate audio. The text might be too long or contain unsupported characters.".

Definition no_tts_warning : str := lit "Text-to-speech service not available".

(** A TTS service that renders chunk 0 and raises on every later chunk, and
    a script of two chunks. *)
Definition tiring_tts (i : nat) (_ : str) : tts_result :=
  match i with
  | 0 => TtsReturns (Some {| audio_file := Some murf_url |})
  | _ => TtsRaises timed_out
  end.

Definition tiring_world : World :=
  world_of two_pages steady_llm (Some (lit "key")) tiring_tts online.

Definition two_chunk_script : str := repeat 97%N 3000 ++ lit "the end".

(** Between two states nothing was sent to the TTS service and no audio
    file was written. *)
Definition no_speech_between (st st' : state) : Prop :=
  tts_requests (log st') = tts_requests (log st)
  /\ audio_writes (log st') = audio_writes (log st).
(** * Properties *)

(** ** The definitions on small inputs *)

Example chunks_of_three :
  chunks_of 3 (lit "abcdefgh") = [lit "abc"; lit "def"; lit "gh"].
Proof. reflexivity. Qed.

Example range_with_step : range 0 8 3 = [0; 3; 6].
Proof. reflexivity. Qed.

Example strip_spaces : strip (lit "  a b  ") = lit "a b".
Proof. reflexivity. Qed.

Example endswith_is_case_sensitive :
  endswith (lit "a.pdf") (lit ".pdf") = true
  /\ endswith (lit "a.PDF") (lit ".pdf") = false
  /\ endswith (lower (lit "a.PDF")) (lit ".pdf") = true.
Proof. repeat split. Qed.

Example content_type_with_charset :
  contains (lit "application/pdf; charset=binary") (lit "application/pdf") = true
  /\ contains (lit "text/html") (lit "application/pdf") = false.
Proof. split; reflexivity. Qed.

Example parts_are_joined :
  handle_response
    {| response_text := None;
       response_parts := Some [ {| part_text := Some (lit "Hello") |};
                                {| part_text := None |};
                                {| part_text := Some (lit "world") |} ];
       response_candidates := None |}
  = Some (lit "Hello world").
Proof. reflexivity. Qed.

(** The whole pipeline when everything works: the reply carries the script
    and the URL of the audio file named after the timestamp. *)
Example happy_path :
  fst (generate_podcast (R := reply) happy_world
         (upload_request (lit "paper.pdf")) (initial []))
  = Val ([field "status" (JString (lit "success"));
          field "script" (JString the_script);
          field "audio_url"
            (JString (lit "/static/audio/podcast_20240101_120000.mp3"))], 200).
Proof. vm_compute. reflexivity. Qed.

(** Every download answers 404: the reply carries the warning. *)
Example all_downloads_fail :
  fst (generate_podcast (R := reply) not_found_world
         (upload_request (lit "paper.pdf")) (initial []))
  = Val ([field "status" (JString (lit "success"));
          field "script" (JString the_script);
          field "audio_url" JNull;
          field "warning" (JString (lit
            "Failed to generate audio. The text might be too long or contain unsupported characters."))],
         200).
Proof. vm_compute. reflexivity. Qed.

(** ** Chunking *)

Section Chunking.

Lemma ceil_div_zero (b : nat) : 0 < b -> ceil_div 0 b = 0.
Proof.
  intros Hb. unfold ceil_div. apply Nat.div_small. lia.
Qed.

Lemma ceil_div_step (a b : nat) :
  0 < b -> 0 < a -> ceil_div a b = S (ceil_div (a - b) b).
Proof.
  intros Hb Ha. unfold ceil_div.
  destruct (le_lt_dec a b) as [Hle | Hlt].
  - replace (a - b) with 0 by lia.
    replace (0 + b - 1) with (b - 1) by lia.
    rewrite (Nat.div_small (b - 1) b) by lia.
    symmetry. apply (Nat.div_unique (a + b - 1) b 1 (a - 1)); lia.
  - replace (a + b - 1) with ((a - b + b - 1) + 1 * b) by lia.
    rewrite Nat.div_add by lia. lia.
Qed.

(** [ceil_div] is the ceiling of the quotient. *)
Lemma ceil_div_is_ceiling (a b : nat) :
  0 < b -> a <= ceil_div a b * b /\ ceil_div a b * b < a + b.
Proof.
  intros Hb. unfold ceil_div.
  pose proof (Nat.div_mod_eq (a + b - 1) b) as E.
  pose proof (Nat.mod_upper_bound (a + b - 1) b) as U.
  split; nia.
Qed.

Lemma range_from_lt (fuel start stop step i : nat) :
  In i (range_from fuel start stop step) -> i < stop.
Proof.
  revert start. induction fuel as [| fuel IH]; intros start; simpl.
  - intros [].
  - destruct (start <? stop) eqn:E.
    + intros [<- | Hin].
      * now apply Nat.ltb_lt.
      * eauto.
    + intros [].
Qed.

(** The recursion bound of [range] never cuts the sequence short. *)
Lemma range_from_length (fuel start stop step : nat) :
  0 < step -> stop - start <= fuel ->
  length (range_from fuel start stop step) = ceil_div (stop - start) step.
Proof.
  intros Hs. revert start.
  induction fuel as [| fuel IH]; intros start Hf; simpl.
  - replace (stop - start) with 0 by lia. now rewrite ceil_div_zero.
  - destruct (start <? stop) eqn:E.
    + apply Nat.ltb_lt in E. simpl.
      rewrite IH by lia.
      rewrite (ceil_div_step (stop - start) step) by lia.
      do 2 f_equal. lia.
    + apply Nat.ltb_ge in E.
      replace (stop - start) with 0 by lia. now rewrite ceil_div_zero.
Qed.

Lemma range_from_nth (fuel start stop step k : nat) :
  k < length (range_from fuel start stop step) ->
  nth k (range_from fuel start stop step) 0 = start + k * step.
Proof.
  revert start k. induction fuel as [| fuel IH]; intros start k; simpl.
  - lia.
  - destruct (start <? stop); simpl; [| lia].
    destruct k as [| k]; intros Hk.
    + lia.
    + rewrite IH by lia. lia.
Qed.

Lemma skipn_firstn_skipn {A : Type} (a b : nat) (l : list A) :
  a <= b -> skipn a (firstn b l) ++ skipn b l = skipn a l.
Proof.
  intros Hab.
  rewrite <- (firstn_skipn b l) at 3.
  rewrite skipn_app. f_equal.
  destruct (le_lt_dec b (length l)) as [Hle | Hlt].
  - rewrite length_firstn, Nat.min_l by exact Hle.
    now replace (a - b) with 0 by lia.
  - rewrite (skipn_all2 (n := b)) by lia. now rewrite skipn_nil.
Qed.

Lemma length_slice {A : Type} (l : list A) (i j : nat) :
  length (slice l i j) = Nat.min j (length l) - i.
Proof.
  unfold slice. now rewrite length_skipn, length_firstn.
Qed.

Lemma concat_slices (n : nat) (s : str) (fuel start : nat) :
  0 < n -> length s - start <= fuel ->
  concat (map (fun i => slice s i (i + n)) (range_from fuel start (length s) n))
  = skipn start s.
Proof.
  intros Hn. revert start.
  induction fuel as [| fuel IH]; intros start Hf; simpl.
  - symmetry. apply skipn_all2. lia.
  - destruct (start <? length s) eqn:E.
    + simpl. rewrite IH by lia. unfold slice.
      apply skipn_firstn_skipn. lia.
    + apply Nat.ltb_ge in E. symmetry. now apply skipn_all2.
Qed.

Lemma last_is_nth {A : Type} (l : list A) (d : A) :
  last l d = nth (length l - 1) l d.
Proof.
  induction l as [| x l IH]; [reflexivity |].
  destruct l as [| y l]; [reflexivity |].
  change (last (x :: y :: l) d) with (last (y :: l) d).
  rewrite IH. simpl. now rewrite Nat.sub_0_r.
Qed.

Lemma chunks_of_nth (n : nat) (s : str) (k : nat) :
  k < length (chunks_of n s) ->
  nth k (chunks_of n s) [] = slice s (k * n) (k * n + n) /\ k * n < length s.
Proof.
  unfold chunks_of, range. rewrite length_map. intros Hk.
  set (f := fun i => slice s i (i + n)).
  rewrite (nth_indep _ [] (f 0)) by now rewrite length_map.
  rewrite map_nth.
  pose proof (range_from_nth _ _ _ _ _ Hk) as E.
  pose proof (nth_In _ 0 Hk) as Hin. apply range_from_lt in Hin.
  rewrite E in *. simpl in *. now split.
Qed.

Lemma chunks_of_spec (n : nat) (s : str) :
  0 < n ->
  length (chunks_of n s) = ceil_div (length s) n /\
  (forall k, S k < length (chunks_of n s) ->
             length (nth k (chunks_of n s) []) = n) /\
  (chunks_of n s <> [] -> 0 < length (last (chunks_of n s) []) <= n) /\
  concat (chunks_of n s) = s.
Proof.
  intros Hn. repeat split.
  - unfold chunks_of, range. rewrite length_map, range_from_length by lia.
    now rewrite Nat.sub_0_r.
  - intros k Hk.
    destruct (chunks_of_nth n s k) as [E _]; [lia |].
    destruct (chunks_of_nth n s (S k) Hk) as [_ Hlt].
    rewrite E, length_slice. simpl in Hlt. lia.
  - rewrite last_is_nth.
    destruct (chunks_of_nth n s (length (chunks_of n s) - 1)) as [E Hlt].
    + destruct (chunks_of n s); [congruence | simpl; lia].
    + rewrite E, length_slice. lia.
  - rewrite last_is_nth.
    destruct (chunks_of_nth n s (length (chunks_of n s) - 1)) as [E Hlt].
    + destruct (chunks_of n s); [congruence | simpl; lia].
    + rewrite E, length_slice. lia.
  - unfold chunks_of, range.
    rewrite concat_slices by lia. reflexivity.
Qed.

End Chunking.

(** C1.  For every script [s], the chunks the speech synthesizer cuts with
    the fixed size 3000 are [ceil(len(s) / 3000)] many, every chunk but the
    last has exactly 3000 characters, the last one has between 1 and 3000,
    and the chunks concatenated in order give [s] back. *)
Theorem chunks_partition_script (s : str) :
  length (chunks s) = ceil_div (length s) 3000 /\
  (forall k, S k < length (chunks s) -> length (nth k (chunks s) []) = 3000) /\
  (chunks s <> [] -> 0 < length (last (chunks s) []) <= 3000) /\
  concat (chunks s) = s.
Proof.
  apply (chunks_of_spec max_chunk_length s).
  unfold max_chunk_length. apply Nat.lt_0_succ.
Qed.

(** ** The retry loop of the script generator *)

Section Retry.

Variable w : World.

Lemma logged_logged (st : state) (a b : list event) :
  logged (logged st a) b = logged st (a ++ b).
Proof.
  unfold logged; simpl. now rewrite app_assoc.
Qed.


(** A failed attempt, for each of the three attempt numbers. *)
Ltac failed_attempt a :=
  left; split; [reflexivity |];
  destruct a as [| [| [| a]]]; simpl; try lia;
  rewrite <- ?app_assoc; eexists; (split; [reflexivity | try reflexivity; lia]).

(** One attempt either fails, and then sleeps [2 ^ attempt] seconds unless it
    was the last one, or returns the normalized answer. *)
Lemma attempt_body_cases (p : str) (a : nat) (st : state) :
  a < max_retries ->
  (attempt_fails (generate_content w a p) = true /\
   exists c,
     attempt_body w p a st
     = (Val c, logged st (AskedLLM a p :: if a <? 2 then [Slept (2 ^ a)] else []))
     /\ (a < 2 -> c = Continue))
  \/
  (exists r s,
     generate_content w a p = LlmReturns r /\ handle_response r = Some s /\
     attempt_body w p a st = (Ret (Some s), logged st [AskedLLM a p])).
Proof.
  unfold max_retries. intros Ha.
  unfold attempt_body, try_except, bind, model_generate_content, when,
    time_sleep, emit, attempt_fails, max_retries, raise, ret, return_, logged.
  destruct (generate_content w a p) as [e | r]; simpl.
  - failed_attempt a.
  - destruct (handle_response r) as [s |] eqn:E; simpl.
    + right. exists r, s. now repeat split.
    + failed_attempt a.
Qed.

Lemma retry_loop_runs (p : str) (st : state) :
  retry_run w p st (for_each (range 0 max_retries 1) (attempt_body w p) st).
Proof.
  change (range 0 max_retries 1) with [0; 1; 2].
  unfold for_each, bind.
  destruct (attempt_body_cases p 0 st)
    as [[F0 [c0 [E0 C0]]] | [r [s [G [H E0]]]]];
    [unfold max_retries; lia | | rewrite E0; now apply (run_first _ _ _ r s)].
  rewrite E0, (C0 ltac:(lia)). simpl (if 0 <? 2 then _ else _).
  match goal with |- context [attempt_body w p 1 ?st'] =>
    destruct (attempt_body_cases p 1 st')
      as [[F1 [c1 [E1 C1]]] | [r [s [G [H E1]]]]]; [unfold max_retries; lia | | ]
  end.
  2:{ rewrite E1, logged_logged. now apply (run_second _ _ _ r s). }
  rewrite E1, (C1 ltac:(lia)), logged_logged. simpl (if 1 <? 2 then _ else _).
  match goal with |- context [attempt_body w p 2 ?st'] =>
    destruct (attempt_body_cases p 2 st')
      as [[F2 [c2 [E2 C2]]] | [r [s [G [H E2]]]]]; [unfold max_retries; lia | | ]
  end.
  2:{ rewrite E2, logged_logged. now apply (run_third _ _ _ r s). }
  rewrite E2, logged_logged. simpl.
  destruct c2; now apply run_exhausted.
Qed.

Lemma strip_truthy (text : str) : truthy (strip text) = true -> truthy text = true.
Proof.
  destruct text; [discriminate | reflexivity].
Qed.

(** On a blank text the generator returns [None] at once: the LLM is not
    called. *)
Lemma script_of_blank (R : Type) (text : str) (st : state) :
  truthy (strip text) = false ->
  generate_podcast_script (R := R) w text st = (Val None, st).
Proof.
  intros H. unfold generate_podcast_script, call, bind, when.
  rewrite H, orb_true_r. reflexivity.
Qed.

(** On any other text the result is that of the retry loop; whatever the
    loop does, the generator hands a value to its caller. *)
Lemma script_of_loop (R : Type) (text : str) (st : state) :
  truthy (strip text) = true ->
  generate_podcast_script (R := R) w text st
  = let run := for_each (range 0 max_retries 1) (attempt_body w (prompt text)) st in
    (match fst run with Ret v => Val v | _ => Val None end, snd run).
Proof.
  intros H. unfold generate_podcast_script, call, bind, when, try_except.
  rewrite H, (strip_truthy _ H). simpl (negb true || negb true).
  cbv beta iota zeta. unfold ret at 1.
  destruct (for_each (range 0 max_retries 1) (attempt_body w (prompt text)) st)
    as [[[] | e | r] st']; reflexivity.
Qed.

Lemma failed_attempt_has_no_answer (o : llm_result) (r : response) (s : str) :
  attempt_fails o = true -> o = LlmReturns r -> handle_response r = Some s -> False.
Proof.
  intros F -> H. simpl in F. rewrite H in F. discriminate.
Qed.

(** The generator always hands a value to its caller. *)
Lemma generate_podcast_script_returns (R : Type) (text : str) (st : state) :
  exists v st', generate_podcast_script (R := R) w text st = (Val v, st').
Proof.
  destruct (truthy (strip text)) eqn:Ht.
  - rewrite script_of_loop by exact Ht. cbv zeta.
    destruct (for_each _ _ st) as [[[] | e | r] st']; simpl; eauto.
  - rewrite script_of_blank by exact Ht. eauto.
Qed.

(** The sleeps of one call: none, [1], or [1] then [2]. *)
Lemma backoff_sleeps_cases (text : str) :
  backoff_sleeps w text = [] \/ backoff_sleeps w text = [1]
  \/ backoff_sleeps w text = [1; 2].
Proof.
  unfold backoff_sleeps.
  destruct (truthy (strip text)) eqn:Ht.
  - rewrite script_of_loop by exact Ht. cbv zeta.
    destruct (retry_loop_runs (prompt text) (initial [])); simpl; auto.
  - rewrite script_of_blank by exact Ht. simpl. auto.
Qed.

End Retry.




(** C7.  When all three attempts fail, the generator returns [None]; the
    failure reaches the caller as that value, never as an exception. *)
Theorem exhausted_retries_return_none
  (w : World) (R : Type) (text : str) (st : state) :
  (forall attempt, attempt < max_retries ->
     attempt_fails (generate_content w attempt (prompt text)) = true) ->
  exists st', generate_podcast_script (R := R) w text st = (Val None, st').
Proof.
  intros F.
  destruct (truthy (strip text)) eqn:Ht.
  - rewrite script_of_loop by exact Ht.
    pose proof (retry_loop_runs w (prompt text) st) as Run.
    assert (F0 := F 0 ltac:(unfold max_retries; lia)).
    assert (F1 := F 1 ltac:(unfold max_retries; lia)).
    assert (F2 := F 2 ltac:(unfold max_retries; lia)).
    set (p := prompt text) in *.
    destruct Run as [r s G H | r s _ G H | r s _ _ G H | _ _ _].
    + destruct (failed_attempt_has_no_answer _ _ _ F0 G H).
    + destruct (failed_attempt_has_no_answer _ _ _ F1 G H).
    + destruct (failed_attempt_has_no_answer _ _ _ F2 G H).
    + eexists. reflexivity.
  - rewrite script_of_blank by exact Ht. eexists. reflexivity.
Qed.

Lemma exhausted_retries_return_none_witness :
  exists st',
    generate_podcast_script (R := reply) failing_world (lit "paper") (initial [])
    = (Val None, st').
Proof.
  apply (exhausted_retries_return_none failing_world reply (lit "paper") (initial [])).
  intros attempt _. reflexivity.
Defined.

(** C8, as the specification states it, fails: no call of the generator
    sleeps 7 seconds in total. *)
Lemma backoff_total_is_never_seven :
  ~ exists (w : World) (text : str), total (backoff_sleeps w text) = 7.
Proof.
  intros [w [text H]].
  destruct (backoff_sleeps_cases w text) as [E | [E | E]];
    rewrite E in H; discriminate.
Qed.

(** C8, amended.  A call of the generator sleeps at most 1 + 2 = 3 seconds
    in total, and some call does sleep 3 seconds: there is a sleep after the
    first and after the second failed attempt, none after the third. *)
Theorem backoff_total_is_at_most_three :
  (forall (w : World) (text : str), total (backoff_sleeps w text) <= 3) /\
  (exists (w : World) (text : str),
     backoff_sleeps w text = [1; 2] /\ total (backoff_sleeps w text) = 3).
Proof.
  split.
  - intros w text.
    destruct (backoff_sleeps_cases w text) as [E | [E | E]];
      rewrite E; simpl; lia.
  - exists failing_world, (lit "paper"). split; reflexivity.
Qed.

(** ** Response normalization *)

Section Normalization.

Lemma join_cons_spaced (t : str) (rest : list str) :
  join (lit " ") (t :: rest) = t ++ flat_map (fun u => space :: u) rest.
Proof.
  revert t. induction rest as [| u rest IH]; intros t.
  - simpl. now rewrite app_nil_r.
  - change (join (lit " ") (t :: u :: rest))
      with (t ++ lit " " ++ join (lit " ") (u :: rest)).
    rewrite IH. reflexivity.
Qed.

Lemma join_spaced (texts : list str) : join (lit " ") texts = spaced texts.
Proof.
  destruct texts as [| t rest]; [reflexivity | apply join_cons_spaced].
Qed.

(** The comprehension of the code collects the texts of the parts that
    have one, in the order of the parts. *)
Lemma parts_text_collects (ps : list part) : parts_text ps = texts_of_parts ps.
Proof.
  induction ps as [| [[t |]] ps IH]; [reflexivity | |].
  - unfold parts_text in *. simpl. now rewrite IH.
  - unfold parts_text in *. simpl. exact IH.
Qed.

Lemma parts_yield (ps : list part) :
  match parts_text ps with
  | [] => None
  | parts => Some (join (lit " ") parts)
  end = list_shape (Some ps).
Proof.
  unfold list_shape. rewrite <- parts_text_collects.
  destruct (parts_text ps) as [| t rest] eqn:E; [reflexivity |].
  now rewrite join_spaced.
Qed.

Lemma first_candidate_first_yield (cs : list candidate) :
  first_candidate cs = first_yield (map nested_shape cs).
Proof.
  induction cs as [| c cs IH]; [reflexivity |].
  simpl. unfold nested_shape at 1.
  destruct (candidate_content c) as [ct |]; [| exact IH].
  destruct (content_parts ct) as [ps |]; [| exact IH].
  rewrite <- parts_yield.
  destruct (parts_text ps); [exact IH | reflexivity].
Qed.

End Normalization.

(** C6.  For every response, the generator's normalization tries the direct
    text field, then the list of parts, then the nested candidate / content /
    parts, returns what the first shape that yields text gives, and joins the
    part texts of a list shape with single spaces. *)
Theorem handle_response_tries_shapes_in_order (r : response) :
  handle_response r = normalize_by_shapes r.
Proof.
  unfold handle_response, normalize_by_shapes.
  destruct (response_text r) as [t |]; [reflexivity |].
  simpl first_yield.
  destruct (response_parts r) as [ps |].
  - rewrite parts_yield.
    destruct (list_shape (Some ps)); [reflexivity |].
    destruct (response_candidates r) as [cs |]; [| reflexivity].
    rewrite first_candidate_first_yield.
    now destruct (first_yield (map nested_shape cs)).
  - simpl list_shape. cbv iota.
    destruct (response_candidates r) as [cs |]; [| reflexivity].
    rewrite first_candidate_first_yield.
    now destruct (first_yield (map nested_shape cs)).
Qed.

(** ** The PDF extractor *)

Section Extraction.

Variable w : World.

Lemma read_pages (R : Type) (texts : list str) (acc : str) (st : state) :
  fold_for (R := R) (map Page texts) acc add_page_text st
  = (Val (acc ++ concat texts), st).
Proof.
  revert acc. induction texts as [| t texts IH]; intros acc; simpl.
  - now rewrite app_nil_r.
  - unfold bind at 1. simpl. rewrite IH. now rewrite <- app_assoc.
Qed.

Lemma read_broken_page (R : Type) (pages : list page) (e : exn) (acc : str)
  (st : state) :
  In (BrokenPage e) pages ->
  exists e', fold_for (R := R) pages acc add_page_text st = (Exc e', st).
Proof.
  revert acc. induction pages as [| pg pages IH]; intros acc Hin; [destruct Hin |].
  simpl. unfold bind at 1.
  destruct pg as [t | e0]; simpl.
  - destruct Hin as [Heq | Hin]; [discriminate |].
    apply IH, Hin.
  - eauto.
Qed.

(** The extractor, branch by branch. *)
Lemma extract_text_from_pdf_unfold (R : Type) (p : str) (st : state) :
  extract_text_from_pdf (R := R) w p st
  = let st1 := logged st [ExtractedPdf p] in
    match lookup (fs st) p with
    | None => (Val None, st1)
    | Some b =>
        if endswith (lower p) (lit ".pdf") then
          match fitz_open w b with
          | None => (Val None, st1)
          | Some pages =>
              match fold_for (R := option str) pages [] add_page_text st1 with
              | (Val t, st2) => (Val (Some t), st2)
              | (Exc _, st2) => (Val None, st2)
              | (Ret r, st2) => (Val r, st2)
              end
          end
        else (Val None, st1)
    end.
Proof.
  cbv [extract_text_from_pdf call try_except os_path_exists fitz_open_path
       get_fs bind emit when ret return_ raise logged].
  cbn [fs].
  destruct (lookup (fs st) p) as [b |] eqn:Hb; [| reflexivity].
  destruct (endswith (lower p) (lit ".pdf")); [| reflexivity].
  cbn [negb fs]. rewrite Hb.
  destruct (fitz_open w b) as [pages |]; [| reflexivity].
  destruct (fold_for pages [] add_page_text _) as [[t | e | r] st2]; reflexivity.
Qed.

End Extraction.

(** C4.  If [p] names an existing file with a .pdf extension that opens and
    whose pages all give their text, and that text is not empty, then
    [extract_text_from_pdf(p)] returns the non-empty concatenation of the
    page texts in page order.  If the file is missing, does not have a .pdf
    extension (the test of the source, which ignores letter case), or cannot
    be read (it does not open, or a page fails), it returns [None]. *)
Theorem extract_text_from_pdf_result
  (w : World) (R : Type) (p : str) (st : state) :
  (forall (b : bytes) (texts : list str),
     lookup (fs st) p = Some b ->
     endswith (lower p) (lit ".pdf") = true ->
     fitz_open w b = Some (map Page texts) ->
     truthy (concat texts) = true ->
     exists t,
       extract_text_from_pdf (R := R) w p st
       = (Val (Some t), logged st [ExtractedPdf p])
       /\ t = concat texts /\ truthy t = true) /\
  (lookup (fs st) p = None
   \/ endswith (lower p) (lit ".pdf") = false
   \/ (exists b, lookup (fs st) p = Some b
                 /\ (fitz_open w b = None
                     \/ exists pages e, fitz_open w b = Some pages
                                        /\ In (BrokenPage e) pages)) ->
   extract_text_from_pdf (R := R) w p st = (Val None, logged st [ExtractedPdf p])).
Proof.
  rewrite extract_text_from_pdf_unfold. cbv zeta.
  split.
  - intros b texts Hb Hext Hopen Hne.
    exists (concat texts). split; [| now split].
    rewrite Hb, Hext, Hopen, read_pages. reflexivity.
  - intros [Hmiss | [Hext | [b [Hb Hbad]]]].
    + now rewrite Hmiss.
    + rewrite Hext. now destruct (lookup (fs st) p).
    + rewrite Hb.
      destruct (endswith (lower p) (lit ".pdf")); [| reflexivity].
      destruct Hbad as [Hnone | [pages [e [Hopen Hin]]]].
      * now rewrite Hnone.
      * rewrite Hopen.
        destruct (read_broken_page (option str) pages e []
                    (logged st [ExtractedPdf p]) Hin) as [e' E].
        now rewrite E.
Qed.

Lemma extract_text_from_pdf_result_witness :
  (exists t,
     extract_text_from_pdf (R := reply) script_only_world
       (lit "papers/paper.pdf") paper_on_disk
     = (Val (Some t), logged paper_on_disk [ExtractedPdf (lit "papers/paper.pdf")])
     /\ t = concat [lit "Hello World "; lit "research findings"]
     /\ truthy t = true) /\
  extract_text_from_pdf (R := reply) script_only_world
    (lit "papers/missing.pdf") paper_on_disk
  = (Val None, logged paper_on_disk [ExtractedPdf (lit "papers/missing.pdf")]).
Proof.
  split.
  - apply (proj1 (extract_text_from_pdf_result script_only_world reply
                    (lit "papers/paper.pdf") paper_on_disk)
             [] [lit "Hello World "; lit "research findings"]);
      reflexivity.
  - apply (proj2 (extract_text_from_pdf_result script_only_world reply
                    (lit "papers/missing.pdf") paper_on_disk)).
    left. reflexivity.
Defined.

(** ** The web handler *)

Section Handler.

Variable w : World.

Lemma lstrip_blank (t : str) : forallb isspace t = true -> lstrip t = [].
Proof.
  induction t as [| c t IH]; [reflexivity |].
  simpl. intros H. apply andb_true_iff in H as [Hc Ht].
  rewrite Hc. now apply IH.
Qed.

Lemma strip_blank (t : str) : forallb isspace t = true -> strip t = [].
Proof.
  intros H. unfold strip. now rewrite lstrip_blank.
Qed.

(** [request.files] gives the parts of a body within the limit and raises
    on a longer one. *)
Lemma request_files_within (R : Type) (req : request) (st : state) :
  within_limit req = true ->
  request_files (R := R) req st = (Val (files_file req), st).
Proof.
  unfold within_limit, request_files. intros H.
  now rewrite N.ltb_antisym, H.
Qed.

Lemma request_files_oversize (R : Type) (req : request) (st : state) :
  within_limit req = false ->
  request_files (R := R) req st
  = (Exc (Exception (lit "413 Request Entity Too Large")), st).
Proof.
  unfold within_limit, request_files. intros H.
  now rewrite N.ltb_antisym, H.
Qed.

Lemma read_source_within (req : request) (st : state) :
  within_limit req = true ->
  read_source w req st = read_parts w req (files_file req) st.
Proof.
  intros H. unfold read_source, bind.
  now rewrite (request_files_within reply req st H).
Qed.

Lemma read_source_oversize (req : request) (st : state) :
  within_limit req = false ->
  read_source w req st
  = (Exc (Exception (lit "413 Request Entity Too Large")), st).
Proof.
  intros H. unfold read_source, bind.
  now rewrite (request_files_oversize reply req st H).
Qed.

(** A body over the limit is answered by the outer handler, before any
    branch is taken. *)
Lemma oversize_request_gets_500 (R : Type) (req : request) (st : state) :
  within_limit req = false ->
  generate_podcast (R := R) w req st
  = (Val ([field "error"
             (JString (lit "An internal server error occurred."))], 500), st).
Proof.
  intros H.
  unfold generate_podcast, call, try_except, bind.
  now rewrite (read_source_oversize req st H).
Qed.

(** The handler is [respond] applied to what [read_source] leaves in
    [paper_text]. *)
Lemma generate_podcast_of_text (R : Type) (req : request) (st st1 : state)
  (paper_text : option str) :
  read_source w req st = (Val paper_text, st1) ->
  generate_podcast (R := R) w req st
  = match respond w paper_text st1 with
    | (Val a, st2) => (Val a, st2)
    | (Ret a, st2) => (Val a, st2)
    | (Exc _, st2) =>
        (Val ([field "error"
                 (JString (lit "An internal server error occurred."))], 500), st2)
    end.
Proof.
  intros H. unfold generate_podcast, call, try_except, bind. rewrite H.
  destruct (respond w paper_text st1) as [[a | e | a] st2]; reflexivity.
Qed.

Lemma speak_chunk_quiet (i : nat) (chunk : str) (st : state) :
  yields_no_audio w i chunk ->
  exists st', speak_chunk w (i, chunk) [] st = (Val [], st').
Proof.
  unfold yields_no_audio, speak_chunk, bind, emit, http_get, set_audio_url.
  destruct (tts_generate w i chunk) as [e | [r |]]; [intros [] | |].
  - intros [Hf | [resp [Hget Hbad]]].
    + simpl. rewrite Hf. eexists. reflexivity.
    + simpl. destruct (truthy_opt (audio_file r)) eqn:Ht.
      * simpl. unfold bind, emit. simpl. rewrite Hget. simpl.
        destruct (status_code resp =? 200) eqn:Hs.
        -- destruct Hbad as [Hne | Hempty].
           ++ apply Nat.eqb_eq in Hs. contradiction.
           ++ rewrite Hempty. eexists. reflexivity.
        -- eexists. reflexivity.
      * eexists. reflexivity.
  - intros _. simpl. eexists. reflexivity.
Qed.

Lemma speak_all_quiet (ics : list (nat * str)) (st : state) :
  (forall i chunk, yields_no_audio w i chunk) ->
  exists st', fold_for ics [] (speak_chunk w) st = (Val [], st').
Proof.
  intros Hq. revert st. induction ics as [| [i chunk] ics IH]; intros st.
  - eexists. reflexivity.
  - cbn [fold_for]. unfold bind at 1.
    destruct (speak_chunk_quiet i chunk st (Hq i chunk)) as [st1 E].
    rewrite E. apply IH.
Qed.

End Handler.

(** When speech synthesis is reached and every chunk fails without an
    exception (nothing rendered, or no download that gives bytes), the reply
    is the script with [audio_url] null and a warning, status 200. *)
Lemma quiet_tts_failure_is_reported
  (w : World) (podcast_script key : str) (st : state) :
  murf_client w = Some key ->
  (forall i chunk, yields_no_audio w i chunk) ->
  exists st' warning,
    speech w podcast_script st
    = (Ret ([field "status" (JString (lit "success"));
             field "script" (JString podcast_script);
             field "audio_url" JNull;
             field "warning" (JString warning)], 200), st').
Proof.
  intros Hk Hq. unfold speech, bind, set_audio_url, when. rewrite Hk. simpl.
  unfold synthesize, try_except, bind.
  match goal with |- context [fold_for ?l [] (speak_chunk w) ?s] =>
    destruct (speak_all_quiet w l s Hq) as [st1 E]
  end.
  rewrite E. simpl. eexists. eexists. reflexivity.
Qed.

(** C3, where the code departs from it: the TTS service renders the only
    chunk and the download of the audio raises.  The reply has status 200
    and the script, but no warning field, and [audio_url] is the remote URL
    of the chunk instead of null. *)
Theorem tts_exception_reply_lacks_warning :
  fst download_raises_run
  = Val ([field "status" (JString (lit "success"));
          field "script" (JString the_script);
          field "audio_url" (JString murf_url)], 200)
  /\ In (AskedTTS 0 the_script) (log (snd download_raises_run))
  /\ In (Fetched murf_url) (log (snd download_raises_run))
  /\ ~ (exists data path, In (WroteAudio path data) (log (snd download_raises_run))).
Proof.
  split; [vm_compute; reflexivity |].
  split; [vm_compute; tauto |].
  split; [vm_compute; tauto |].
  intros [data [path H]]. vm_compute in H.
  repeat (destruct H as [H | H]; [discriminate |]). exact H.
Qed.

(** The same request when the TTS call itself raises: [audio_url] is null,
    and the reply still has no warning field. *)
Lemma tts_raise_reply_lacks_warning :
  fst (generate_podcast (R := reply) tts_raises_world
         (upload_request (lit "paper.pdf")) (initial []))
  = Val ([field "status" (JString (lit "success"));
          field "script" (JString the_script);
          field "audio_url" JNull], 200).
Proof.
  vm_compute. reflexivity.
Qed.

(** C5, as the specification states it, fails: the file name [A.PDF] is not
    empty and does not end in [.pdf], yet the upload is saved, its text is
    extracted, the LLM is asked, and the reply is a success. *)
Lemma uppercase_pdf_upload_is_processed :
  files_file (upload_request (lit "A.PDF"))
  = Some {| filename := lit "A.PDF"; data := [] |}
  /\ truthy (lit "A.PDF") = true
  /\ endswith (lit "A.PDF") (lit ".pdf") = false
  /\ fst uppercase_upload_run
     = Val ([field "status" (JString (lit "success"));
             field "script" (JString the_script);
             field "audio_url" JNull;
             field "warning" (JString (lit "Text-to-speech service not available"))],
            200)
  /\ log (snd uppercase_upload_run)
     = [Saved (lit "uploads/id0.pdf");
        ExtractedPdf (lit "uploads/id0.pdf");
        Removed (lit "uploads/id0.pdf");
        AskedLLM 0 (prompt (lit "Hello World research findings"));
        WroteScript (lit "uploads/id1.txt") the_script].
Proof.
  repeat split; vm_compute; reflexivity.
Qed.

(** The limit on the body comes first: [notes.txt] in a body one byte over
    16 MiB is answered with status 500, not with "Invalid file type". *)
Lemma oversize_upload_gets_500 :
  generate_podcast (R := reply) failing_world oversize_upload_request
    (initial [])
  = (Val ([field "error"
             (JString (lit "An internal server error occurred."))], 500),
     initial []).
Proof.
  apply oversize_request_gets_500. reflexivity.
Qed.

(** C5, amended.  An upload whose file name is not empty and, once put in
    lower case, does not end in [.pdf], in a request whose body is within
    the limit of 16 MiB, gets status 400 with the "Invalid file type"
    message, and the state is untouched: nothing was saved, extracted, asked
    of the LLM or of the TTS service. *)
Theorem non_pdf_upload_is_rejected
  (w : World) (R : Type) (req : request) (file : upload) (st : state) :
  within_limit req = true ->
  files_file req = Some file ->
  truthy (filename file) = true ->
  endswith (lower (filename file)) (lit ".pdf") = false ->
  generate_podcast (R := R) w req st
  = (Val ([field "error"
             (JString (lit "Invalid file type. Please upload a PDF."))], 400), st).
Proof.
  intros Hsize Hfile Hname Hext.
  unfold generate_podcast, call, try_except, bind.
  rewrite (read_source_within w req st Hsize).
  unfold read_parts, bind, when. rewrite Hfile, Hext.
  destruct (filename file) as [| c name]; [discriminate |].
  reflexivity.
Qed.

Lemma non_pdf_upload_is_rejected_witness :
  generate_podcast (R := reply) script_only_world
    (upload_request (lit "notes.txt")) (initial [])
  = (Val ([field "error"
             (JString (lit "Invalid file type. Please upload a PDF."))], 400),
     initial []).
Proof.
  apply (non_pdf_upload_is_rejected script_only_world reply
           (upload_request (lit "notes.txt"))
           {| filename := lit "notes.txt"; data := [] |} (initial []));
    reflexivity.
Defined.

(** C9.  When the extracted text is not empty but made of whitespace only,
    the handler's empty-text check lets it through, the script generator
    returns [None] without calling the LLM, and the reply is status 500 with
    "Failed to generate podcast script". *)
Theorem whitespace_text_gives_500
  (w : World) (R : Type) (req : request) (st st1 : state) (t : str) :
  read_source w req st = (Val (Some t), st1) ->
  truthy t = true ->
  forallb isspace t = true ->
  truthy_opt (Some t) = true
  /\ generate_podcast_script (R := reply) w t st1 = (Val None, st1)
  /\ generate_podcast (R := R) w req st
     = (Val ([field "error"
                (JString (lit "Failed to generate podcast script"))], 500), st1).
Proof.
  intros Hsrc Hne Hblank.
  assert (Hstrip : truthy (strip t) = false) by now rewrite strip_blank.
  assert (Htruthy : truthy_opt (Some t) = true) by exact Hne.
  split; [exact Htruthy |]. split.
  - now apply script_of_blank.
  - rewrite (generate_podcast_of_text w R req st st1 (Some t) Hsrc).
    unfold respond, bind, when. rewrite Htruthy.
    cbn [negb unwrap]. unfold ret at 1.
    rewrite (script_of_blank w reply t st1 Hstrip). reflexivity.
Qed.

Lemma whitespace_text_gives_500_witness :
  truthy_opt (Some (lit "   ")) = true
  /\ generate_podcast_script (R := reply) blank_page_world (lit "   ")
       after_blank_upload
     = (Val None, after_blank_upload)
  /\ generate_podcast (R := reply) blank_page_world
       (upload_request (lit "paper.pdf")) (initial [])
     = (Val ([field "error"
                (JString (lit "Failed to generate podcast script"))], 500),
        after_blank_upload).
Proof.
  apply (whitespace_text_gives_500 blank_page_world reply
           (upload_request (lit "paper.pdf")) (initial []) after_blank_upload
           (lit "   "));
    reflexivity.
Defined.

(** C10, as the specification states it, fails: a form post without a file
    part that is not JSON and whose body is one byte over the limit of
    16 MiB makes [request.files] raise, and the reply is status 500. *)
Lemma oversize_form_post_gets_500 :
  files_file oversize_form_request = None
  /\ is_json oversize_form_request = false
  /\ content_length oversize_form_request = (MAX_CONTENT_LENGTH + 1)%N
  /\ generate_podcast (R := reply) failing_world oversize_form_request
       (initial [])
     = (Val ([field "error"
                (JString (lit "An internal server error occurred."))], 500),
        initial []).
Proof.
  split; [reflexivity |]. split; [reflexivity |]. split; [reflexivity |].
  apply oversize_request_gets_500. reflexivity.
Qed.

(** C10, amended.  A request whose body is within the limit of 16 MiB, with
    no ['file'] part, that is not JSON leaves [paper_text] at [None] and gets
    status 400 with "Could not extract text from the source."; the state is
    untouched, so neither extraction nor the LLM nor the TTS service was
    invoked. *)
Theorem no_file_no_json_gives_400
  (w : World) (R : Type) (req : request) (st : state) :
  within_limit req = true ->
  files_file req = None ->
  is_json req = false ->
  read_source w req st = (Val None, st)
  /\ generate_podcast (R := R) w req st
     = (Val ([field "error"
                (JString (lit "Could not extract text from the source."))], 400),
        st).
Proof.
  intros Hsize Hfile Hjson.
  assert (Hsrc : read_source w req st = (Val None, st)).
  { rewrite (read_source_within w req st Hsize).
    unfold read_parts. now rewrite Hfile, Hjson. }
  split; [exact Hsrc |].
  now rewrite (generate_podcast_of_text w R req st st None Hsrc).
Qed.

Lemma no_file_no_json_gives_400_witness :
  read_source failing_world form_request (initial []) = (Val None, initial [])
  /\ generate_podcast (R := reply) failing_world form_request (initial [])
     = (Val ([field "error"
                (JString (lit "Could not extract text from the source."))], 400),
        initial []).
Proof.
  apply (no_file_no_json_gives_400 failing_world reply form_request (initial []));
    reflexivity.
Defined.

(** * Further properties of [app.py] *)

(** ** Paths, files and documents *)

Section Files.

Lemma char_eqb_refl (c : char) : char_eqb c c = true.
Proof.
  apply N.eqb_refl.
Qed.

Lemma str_eqb_refl (s : str) : str_eqb s s = true.
Proof.
  induction s as [| c s IH]; [reflexivity |].
  simpl. now rewrite char_eqb_refl.
Qed.

Lemma startswith_app (p s : str) : startswith (p ++ s) p = true.
Proof.
  induction p as [| c p IH]; [now destruct s |].
  simpl. now rewrite char_eqb_refl.
Qed.

(** A name that is given the suffix [.pdf] passes the extension test. *)
Lemma pdf_suffix_passes (stem : str) :
  endswith (lower (stem ++ lit ".pdf")) (lit ".pdf") = true.
Proof.
  unfold endswith, lower. rewrite map_app, rev_app_distr.
  apply startswith_app.
Qed.

Lemma upload_path_passes (w : World) (st : state) :
  endswith (lower (upload_path w st)) (lit ".pdf") = true.
Proof.
  unfold upload_path, path_join. rewrite !app_assoc. apply pdf_suffix_passes.
Qed.

Lemma lookup_delete (files : list (str * bytes)) (p : str) :
  lookup (delete files p) p = None.
Proof.
  induction files as [| [q b] files IH]; [reflexivity |].
  simpl. destruct (str_eqb q p) eqn:E; [exact IH |].
  simpl. now rewrite E.
Qed.

Lemma delete_delete (files : list (str * bytes)) (p : str) :
  delete (delete files p) p = delete files p.
Proof.
  induction files as [| [q b] files IH]; [reflexivity |].
  simpl. destruct (str_eqb q p) eqn:E; [exact IH |].
  simpl. now rewrite E, IH.
Qed.

(** Reading the pages one after the other gives [pages_text], or raises at
    the first page that cannot be read. *)
Lemma read_document (R : Type) (pages : list page) (acc : str) (st : state) :
  match pages_text pages with
  | Some t => fold_for (R := R) pages acc add_page_text st = (Val (acc ++ t), st)
  | None => exists e, fold_for (R := R) pages acc add_page_text st = (Exc e, st)
  end.
Proof.
  revert acc. induction pages as [| [t | e] pages IH]; intros acc.
  - simpl. now rewrite app_nil_r.
  - cbn [pages_text fold_for]. unfold bind at 1. simpl.
    specialize (IH (acc ++ t)).
    destruct (pages_text pages) as [u |].
    + now rewrite IH, app_assoc.
    + exact IH.
  - cbn [pages_text fold_for]. unfold bind at 1. simpl.
    eexists. reflexivity.
Qed.

(** On a file that exists and whose name passes the extension test, the
    extractor returns what [fitz] makes of its bytes. *)
Lemma extract_existing_pdf (w : World) (R : Type) (p : str) (b : bytes)
  (st : state) :
  lookup (fs st) p = Some b ->
  endswith (lower p) (lit ".pdf") = true ->
  extract_text_from_pdf (R := R) w p st
  = (Val (document_text w b), logged st [ExtractedPdf p]).
Proof.
  intros Hb Hext. rewrite extract_text_from_pdf_unfold. cbv zeta.
  rewrite Hb, Hext. unfold document_text.
  destruct (fitz_open w b) as [pages |]; [| reflexivity].
  pose proof (read_document (option str) pages [] (logged st [ExtractedPdf p])) as H.
  destruct (pages_text pages) as [t |].
  - now rewrite H.
  - destruct H as [e H]. now rewrite H.
Qed.

End Files.

(** ** What the handler does with what [read_source] gives *)

Section Dispatch.

Variable w : World.

Lemma generate_podcast_of_return (R : Type) (req : request) (st st1 : state)
  (r : reply) :
  read_source w req st = (Ret r, st1) ->
  generate_podcast (R := R) w req st = (Val r, st1).
Proof.
  intros H. unfold generate_podcast, call, try_except, bind. now rewrite H.
Qed.

Lemma generate_podcast_of_exception (R : Type) (req : request) (st st1 : state)
  (e : exn) :
  read_source w req st = (Exc e, st1) ->
  generate_podcast (R := R) w req st
  = (Val ([field "error"
             (JString (lit "An internal server error occurred."))], 500), st1).
Proof.
  intros H. unfold generate_podcast, call, try_except, bind. now rewrite H.
Qed.

(** The URL extractor, branch by branch. *)
Lemma extract_text_from_url_unfold (R : Type) (url : str) (st : state) :
  extract_text_from_url (R := R) w url st
  = match requests_get w url with
    | HttpRaises _ => (Val None, logged st [Fetched url])
    | HttpReturns r =>
        if contains (content_type r) (lit "application/pdf")
        then (Val (document_text w (on_disk_before_close w (http_content r))),
              after_pdf_download w url (http_content r) st)
        else (Val (Some (soup_get_text w (http_text r))),
              logged st [Fetched url])
    end.
Proof.
  unfold extract_text_from_url, call, try_except, http_get.
  unfold bind at 1 2. unfold emit at 1.
  destruct (requests_get w url) as [e | r]; [reflexivity |].
  unfold ret at 1.
  destruct (contains (content_type r) (lit "application/pdf")); [| reflexivity].
  unfold bind, get_fs, set_fs. cbn [fs log uuids audio_url].
  rewrite (extract_existing_pdf w (option str) (tmp_path w)
             (on_disk_before_close w (http_content r))).
  - unfold after_pdf_download, logged. cbn [fs log uuids audio_url].
    now rewrite <- app_assoc.
  - cbn [fs lookup]. unfold tmp_path. now rewrite str_eqb_refl.
  - apply pdf_suffix_passes.
Qed.

End Dispatch.

(** ** Input validation *)

(** Opens [read_source] on a request whose body is within the limit. *)
Ltac open_request Hsize :=
  rewrite (read_source_within _ _ _ Hsize); unfold read_parts.

(** X1.  In a request whose body is within the limit of 16 MiB, an upload
    whose file name is empty is answered with status 400 and "No selected
    file"; nothing is saved or read. *)
Theorem empty_filename_is_rejected
  (w : World) (R : Type) (req : request) (file : upload) (st : state) :
  within_limit req = true ->
  files_file req = Some file ->
  truthy (filename file) = false ->
  generate_podcast (R := R) w req st
  = (Val ([field "error" (JString (lit "No selected file"))], 400), st).
Proof.
  intros Hsize Hfile Hname.
  apply generate_podcast_of_return.
  open_request Hsize. rewrite Hfile.
  destruct (filename file); [reflexivity | discriminate].
Qed.

Lemma empty_filename_is_rejected_witness :
  generate_podcast (R := reply) script_only_world (upload_request []) (initial [])
  = (Val ([field "error" (JString (lit "No selected file"))], 400), initial []).
Proof.
  apply (empty_filename_is_rejected script_only_world reply (upload_request [])
           {| filename := []; data := [] |} (initial []));
    reflexivity.
Defined.

(** X2.  A JSON request whose body is within the limit of 16 MiB, without a
    file part, whose ['source'] is missing or empty is answered with status
    400 and "No URL provided"; nothing is fetched. *)
Theorem missing_url_is_rejected
  (w : World) (R : Type) (req : request) (url : option str) (st : state) :
  within_limit req = true ->
  files_file req = None ->
  is_json req = true ->
  get_json req = Object url ->
  truthy_opt url = false ->
  generate_podcast (R := R) w req st
  = (Val ([field "error" (JString (lit "No URL provided"))], 400), st).
Proof.
  intros Hsize Hfile Hjson Hbody Hurl.
  apply generate_podcast_of_return.
  open_request Hsize. rewrite Hfile, Hjson, Hbody.
  unfold bind, when. now rewrite Hurl.
Qed.

Lemma missing_url_is_rejected_witness :
  generate_podcast (R := reply) script_only_world (json_request (Some []))
    (initial [])
  = (Val ([field "error" (JString (lit "No URL provided"))], 400), initial []).
Proof.
  apply (missing_url_is_rejected script_only_world reply (json_request (Some []))
           (Some []) (initial []));
    reflexivity.
Defined.

(** X3.  A JSON request without a file part whose body cannot be used
    ([get_json] raises, or the value has no [get]) is answered with status
    500 and the generic message of the outer handler. *)
Theorem unusable_json_gives_500
  (w : World) (R : Type) (req : request) (e : exn) (st : state) :
  files_file req = None ->
  is_json req = true ->
  get_json req = Unusable e ->
  generate_podcast (R := R) w req st
  = (Val ([field "error"
             (JString (lit "An internal server error occurred."))], 500), st).
Proof.
  intros Hfile Hjson Hbody.
  destruct (within_limit req) eqn:Hsize.
  - apply (generate_podcast_of_exception w R req st st e).
    open_request Hsize. now rewrite Hfile, Hjson, Hbody.
  - now apply oversize_request_gets_500.
Qed.

Lemma unusable_json_gives_500_witness :
  generate_podcast (R := reply) script_only_world broken_json_request (initial [])
  = (Val ([field "error"
             (JString (lit "An internal server error occurred."))], 500),
     initial []).
Proof.
  apply (unusable_json_gives_500 script_only_world reply broken_json_request
           (Exception (lit "400 Bad Request")) (initial []));
    reflexivity.
Defined.

(** X4.  When the request has a file part, its JSON side is never looked
    at: two requests with the same file part, both within the limit of
    16 MiB or both over it, get the same reply and leave the same state. *)
Theorem file_part_wins_over_json
  (w : World) (R : Type) (req req' : request) (file : upload) (st : state) :
  within_limit req = within_limit req' ->
  files_file req = Some file ->
  files_file req' = Some file ->
  generate_podcast (R := R) w req st = generate_podcast (R := R) w req' st.
Proof.
  intros Hsize H H'.
  destruct (within_limit req) eqn:E; symmetry in Hsize.
  - unfold generate_podcast, call, try_except, bind.
    rewrite (read_source_within w req st E),
      (read_source_within w req' st Hsize).
    unfold read_parts. now rewrite H, H'.
  - now rewrite !oversize_request_gets_500.
Qed.

Lemma file_part_wins_over_json_witness :
  generate_podcast (R := reply) script_only_world
    {| content_length := 4096;
       files_file := Some {| filename := lit "paper.pdf"; data := [] |};
       is_json := true;
       get_json := Object (Some (lit "https://example.org/other.pdf")) |}
    (initial [])
  = generate_podcast (R := reply) script_only_world
      (upload_request (lit "paper.pdf")) (initial []).
Proof.
  apply (file_part_wins_over_json script_only_world reply _ _
           {| filename := lit "paper.pdf"; data := [] |} (initial []));
    reflexivity.
Defined.

(** ** The upload branch *)

Lemma read_accepted_upload
  (w : World) (req : request) (file : upload) (st : state) :
  within_limit req = true ->
  files_file req = Some file ->
  truthy (filename file) = true ->
  endswith (lower (filename file)) (lit ".pdf") = true ->
  read_source w req st
  = (Val (document_text w (data file)), after_upload w st).
Proof.
  intros Hsize Hfile Hname Hext.
  open_request Hsize. rewrite Hfile, Hname, Hext.
  destruct (filename file) as [| c name]; [discriminate |].
  cbn [str_eqb lit map list_ascii_of_string when andb].
  unfold bind at 1. unfold ret at 1.
  unfold bind at 1. unfold new_uuid at 1.
  fold (upload_path w st).
  unfold bind at 1. unfold file_save, bind, get_fs, set_fs, emit.
  cbn [fs log uuids audio_url].
  rewrite (extract_existing_pdf w reply (upload_path w st) (data file)).
  - unfold os_remove, bind, get_fs, set_fs, emit, ret, logged, after_upload.
    cbn [fs log uuids audio_url delete].
    rewrite str_eqb_refl, delete_delete, <- !app_assoc. reflexivity.
  - cbn [fs lookup]. now rewrite str_eqb_refl.
  - apply upload_path_passes.
Qed.

(** X5.  An accepted upload (its request within the limit of 16 MiB, its
    name not empty and ending in [.pdf] in any letter case) is saved under
    [uploads/<uuid>.pdf], read and
    removed again: [paper_text] is what [fitz] makes of the uploaded bytes
    (the extractor's missing-file and extension branches cannot be taken on
    that path), and afterwards no file exists under that path. *)
Theorem accepted_upload_is_read_then_removed
  (w : World) (req : request) (file : upload) (st : state) :
  within_limit req = true ->
  files_file req = Some file ->
  truthy (filename file) = true ->
  endswith (lower (filename file)) (lit ".pdf") = true ->
  read_source w req st
  = (Val (document_text w (data file)), after_upload w st)
  /\ lookup (fs (after_upload w st)) (upload_path w st) = None.
Proof.
  intros Hsize Hfile Hname Hext. split.
  - now apply read_accepted_upload.
  - apply lookup_delete.
Qed.

Lemma accepted_upload_is_read_then_removed_witness :
  read_source script_only_world (upload_request (lit "Paper.PDF")) (initial [])
  = (Val (document_text script_only_world []),
     after_upload script_only_world (initial []))
  /\ lookup (fs (after_upload script_only_world (initial [])))
       (upload_path script_only_world (initial [])) = None.
Proof.
  apply (accepted_upload_is_read_then_removed script_only_world
           (upload_request (lit "Paper.PDF"))
           {| filename := lit "Paper.PDF"; data := [] |} (initial []));
    reflexivity.
Defined.

(** X6.  An accepted upload that [fitz] cannot read, or whose pages carry
    no text at all, is answered with status 400 and "Could not extract text
    from the source."; the upload has been removed and the LLM was not
    asked. *)
Theorem textless_upload_gives_400
  (w : World) (R : Type) (req : request) (file : upload) (st : state) :
  within_limit req = true ->
  files_file req = Some file ->
  truthy (filename file) = true ->
  endswith (lower (filename file)) (lit ".pdf") = true ->
  truthy_opt (document_text w (data file)) = false ->
  generate_podcast (R := R) w req st
  = (Val ([field "error"
             (JString (lit "Could not extract text from the source."))], 400),
     after_upload w st)
  /\ llm_calls (log (after_upload w st)) = llm_calls (log st).
Proof.
  intros Hsize Hfile Hname Hext Htext.
  pose proof (read_accepted_upload w req file st Hsize Hfile Hname Hext) as Hsrc.
  split.
  - rewrite (generate_podcast_of_text w R req st _ _ Hsrc).
    unfold respond, bind, when. now rewrite Htext.
  - unfold after_upload, llm_calls. cbn [log].
    rewrite flat_map_app. simpl. now rewrite app_nil_r.
Qed.

Lemma textless_upload_gives_400_witness :
  generate_podcast (R := reply) scanned_pdf_world
    (upload_request (lit "scan.pdf")) (initial [])
  = (Val ([field "error"
             (JString (lit "Could not extract text from the source."))], 400),
     after_upload scanned_pdf_world (initial []))
  /\ llm_calls (log (after_upload scanned_pdf_world (initial [])))
     = llm_calls (log (initial [])).
Proof.
  apply (textless_upload_gives_400 scanned_pdf_world reply
           (upload_request (lit "scan.pdf"))
           {| filename := lit "scan.pdf"; data := [] |} (initial []));
    reflexivity.
Defined.

(** ** The URL extractor *)

(** X7.  When the request for the URL raises, [extract_text_from_url]
    returns [None]; it does not raise and touches no file. *)
Theorem unreachable_url_gives_none
  (w : World) (R : Type) (url : str) (e : exn) (st : state) :
  requests_get w url = HttpRaises e ->
  extract_text_from_url (R := R) w url st = (Val None, logged st [Fetched url]).
Proof.
  intros H. rewrite extract_text_from_url_unfold. now rewrite H.
Qed.

Lemma unreachable_url_gives_none_witness :
  extract_text_from_url (R := reply) script_only_world
    (lit "https://example.org/paper") (initial [])
  = (Val None, logged (initial []) [Fetched (lit "https://example.org/paper")]).
Proof.
  apply (unreachable_url_gives_none script_only_world reply
           (lit "https://example.org/paper") timed_out (initial [])).
  reflexivity.
Defined.

(** X8.  When the response's content type does not mention
    [application/pdf], the result is the visible text of the page, whatever
    the status code of the response: the text of an error page is returned
    like any other. *)
Theorem web_page_text_is_returned
  (w : World) (R : Type) (url : str) (r : http_response) (st : state) :
  requests_get w url = HttpReturns r ->
  contains (content_type r) (lit "application/pdf") = false ->
  extract_text_from_url (R := R) w url st
  = (Val (Some (soup_get_text w (http_text r))), logged st [Fetched url]).
Proof.
  intros H Hct. rewrite extract_text_from_url_unfold. now rewrite H, Hct.
Qed.

Lemma web_page_text_is_returned_witness :
  extract_text_from_url (R := reply) html_world
    (lit "https://example.org/gone") (initial [])
  = (Val (Some (lit "Not Found")),
     logged (initial []) [Fetched (lit "https://example.org/gone")]).
Proof.
  apply (web_page_text_is_returned html_world reply
           (lit "https://example.org/gone")
           {| status_code := 404; content_type := lit "text/html";
              http_content := []; http_text := lit "Not Found" |} (initial []));
    reflexivity.
Defined.



(** ** The script generator *)

Section Generator.

Variable w : World.

Lemma llm_calls_app (a b : list event) :
  llm_calls (a ++ b) = llm_calls a ++ llm_calls b.
Proof.
  unfold llm_calls. apply flat_map_app.
Qed.

(** The prompt is a fixed header followed by the first 15000 characters of
    the text. *)
Lemma prompt_split (text : str) :
  prompt text = prompt [] ++ firstn (N.to_nat 15000) text.
Proof.
  unfold prompt, slice. cbn [skipn]. rewrite firstn_nil, app_nil_r.
  now rewrite <- !app_assoc.
Qed.

Lemma lstrip_nil (s : str) : lstrip s = [] -> forallb isspace s = true.
Proof.
  induction s as [| c s IH]; [reflexivity |].
  simpl. destruct (isspace c); [exact IH | discriminate].
Qed.

Lemma lstrip_head (s r : str) (c : char) :
  lstrip s = c :: r -> isspace c = false.
Proof.
  induction s as [| d s IH]; [discriminate |].
  simpl. destruct (isspace d) eqn:E; [exact IH |].
  intros H. injection H as <- _. exact E.
Qed.

Lemma forallb_rev {A : Type} (f : A -> bool) (l : list A) :
  forallb f (rev l) = true -> forallb f l = true.
Proof.
  rewrite !forallb_forall. intros H x Hx. apply H. now apply in_rev in Hx.
Qed.

(** [not text.strip()] holds exactly for the texts made of whitespace. *)
Lemma strip_nonblank (s : str) :
  forallb isspace s = false -> truthy (strip s) = true.
Proof.
  intros H. destruct (strip s) as [| c r] eqn:E; [| reflexivity].
  exfalso. unfold strip, rstrip in E.
  apply (f_equal (@rev char)) in E. rewrite rev_involutive in E. simpl in E.
  apply lstrip_nil, forallb_rev in E.
  destruct (lstrip s) as [| d t] eqn:L.
  - apply lstrip_nil in L. congruence.
  - apply lstrip_head in L. simpl in E. rewrite L in E. discriminate.
Qed.

End Generator.

(** X10.  When the first attempt answers, the generator returns that answer
    at once, empty or not: the LLM has been asked once and there was no
    sleep. *)
Theorem first_answer_stops_retrying
  (w : World) (R : Type) (text : str) (st : state) (r : response) (s : str) :
  truthy (strip text) = true ->
  generate_content w 0 (prompt text) = LlmReturns r ->
  handle_response r = Some s ->
  generate_podcast_script (R := R) w text st
  = (Val (Some s), logged st [AskedLLM 0 (prompt text)]).
Proof.
  intros Ht G H.
  rewrite script_of_loop by exact Ht.
  pose proof (retry_loop_runs w (prompt text) st) as Run.
  set (p := prompt text) in *.
  destruct Run as [r' s' G' H' | r' s' F _ _ | r' s' F _ _ _ | F _ _].
  - rewrite G in G'. injection G' as <-. rewrite H in H'. injection H' as <-.
    reflexivity.
  - destruct (failed_attempt_has_no_answer _ _ _ F G H).
  - destruct (failed_attempt_has_no_answer _ _ _ F G H).
  - destruct (failed_attempt_has_no_answer _ _ _ F G H).
Qed.

Lemma first_answer_stops_retrying_witness :
  generate_podcast_script (R := reply) empty_answer_world (lit "paper") (initial [])
  = (Val (Some []), logged (initial []) [AskedLLM 0 (prompt (lit "paper"))]).
Proof.
  apply (first_answer_stops_retrying empty_answer_world reply (lit "paper")
           (initial []) (answer []) []);
    reflexivity.
Defined.

(** X11.  One call of the generator asks the LLM at most three times, with
    the attempt numbers 0, 1, 2 in this order, and not at all when the text
    is blank. *)
Theorem llm_is_asked_at_most_three_times
  (w : World) (R : Type) (text : str) (st : state) :
  exists k,
    k <= 3
    /\ llm_calls (log (snd (generate_podcast_script (R := R) w text st)))
       = llm_calls (log st) ++ seq 0 k
    /\ (truthy (strip text) = false -> k = 0).
Proof.
  destruct (truthy (strip text)) eqn:Ht.
  - rewrite script_of_loop by exact Ht. cbv zeta.
    destruct (retry_loop_runs w (prompt text) st);
      [exists 1 | exists 2 | exists 3 | exists 3];
      (split; [lia |]); (split; [| discriminate]);
      cbn [snd logged log]; now rewrite llm_calls_app.
  - rewrite script_of_blank by exact Ht. exists 0.
    split; [lia |]. split; [| reflexivity].
    cbn [snd seq]. now rewrite app_nil_r.
Qed.

(** X12.  Only the first 15000 characters of the text reach the LLM: two
    texts that are not made of whitespace only and agree on their first
    15000 characters give the same prompt, of at most 15000 characters more
    than the fixed instructions, and are treated alike. *)
Theorem text_beyond_15000_is_ignored
  (w : World) (R : Type) (text text' : str) (st : state) :
  forallb isspace text = false ->
  forallb isspace text' = false ->
  firstn (N.to_nat 15000) text = firstn (N.to_nat 15000) text' ->
  prompt text = prompt text'
  /\ length (prompt text) <= length (prompt []) + N.to_nat 15000
  /\ generate_podcast_script (R := R) w text st
     = generate_podcast_script (R := R) w text' st.
Proof.
  intros Ht Ht' E.
  apply strip_nonblank in Ht, Ht'.
  assert (P : prompt text = prompt text')
    by (rewrite (prompt_split text), (prompt_split text'); now rewrite E).
  split; [exact P |]. split.
  - rewrite (prompt_split text), length_app, length_firstn. lia.
  - rewrite !script_of_loop by assumption. now rewrite P.
Qed.

Lemma text_beyond_15000_is_ignored_witness :
  prompt (long_text (lit "left out"))
  = prompt (long_text (lit "something else"))
  /\ length (prompt (long_text (lit "left out")))
     <= length (prompt []) + N.to_nat 15000
  /\ generate_podcast_script (R := reply) flaky_world
       (long_text (lit "left out")) (initial [])
     = generate_podcast_script (R := reply) flaky_world
         (long_text (lit "something else")) (initial []).
Proof.
  apply (text_beyond_15000_is_ignored flaky_world reply
           (long_text (lit "left out"))
           (long_text (lit "something else")) (initial []));
    vm_compute; reflexivity.
Defined.

(** X13.  An empty answer of the LLM at the first attempt is not retried:
    the handler replies with status 500 and "Failed to generate podcast
    script" after a single call of the LLM. *)
Theorem empty_answer_gives_500_without_retry
  (w : World) (R : Type) (req : request) (st st1 : state) (t : str)
  (r : response) :
  read_source w req st = (Val (Some t), st1) ->
  truthy (strip t) = true ->
  generate_content w 0 (prompt t) = LlmReturns r ->
  handle_response r = Some [] ->
  generate_podcast (R := R) w req st
  = (Val ([field "error"
             (JString (lit "Failed to generate podcast script"))], 500),
     logged st1 [AskedLLM 0 (prompt t)]).
Proof.
  intros Hsrc Ht G H.
  rewrite (generate_podcast_of_text w R req st st1 (Some t) Hsrc).
  unfold respond, bind, when.
  rewrite (strip_truthy t Ht : truthy_opt (Some t) = true).
  cbn [negb unwrap]. unfold ret at 1.
  assert (E : generate_podcast_script (R := reply) w t st1
              = (Val (Some []), logged st1 [AskedLLM 0 (prompt t)])).
  { rewrite script_of_loop by exact Ht.
    pose proof (retry_loop_runs w (prompt t) st1) as Run.
    set (p := prompt t) in *.
    destruct Run as [r' s' G' H' | r' s' F _ _ | r' s' F _ _ _ | F _ _];
      try (destruct (failed_attempt_has_no_answer _ _ _ F G H)).
    rewrite G in G'. injection G' as <-. rewrite H in H'. injection H' as <-.
    reflexivity. }
  rewrite E. reflexivity.
Qed.

Lemma empty_answer_gives_500_without_retry_witness :
  generate_podcast (R := reply) empty_answer_world
    (upload_request (lit "paper.pdf")) (initial [])
  = (Val ([field "error"
             (JString (lit "Failed to generate podcast script"))], 500),
     logged (after_upload empty_answer_world (initial []))
       [AskedLLM 0 (prompt (lit "Hello World research findings"))]).
Proof.
  apply (empty_answer_gives_500_without_retry empty_answer_world reply
           (upload_request (lit "paper.pdf")) (initial [])
           (after_upload empty_answer_world (initial []))
           (lit "Hello World research findings") (answer []));
    reflexivity.
Defined.

(** ** Speech synthesis *)

Section Speech.

Variable w : World.

Lemma forallb_of_map {A B : Type} (f : B -> bool) (g : A -> B) (l : list A) :
  forallb f (map g l) = forallb (fun x => f (g x)) l.
Proof.
  induction l as [| x l IH]; [reflexivity |].
  simpl. now rewrite IH.
Qed.

Lemma tts_requests_app (a b : list event) :
  tts_requests (a ++ b) = tts_requests a ++ tts_requests b.
Proof.
  unfold tts_requests. apply flat_map_app.
Qed.

Lemma audio_writes_app (a b : list event) :
  audio_writes (a ++ b) = audio_writes a ++ audio_writes b.
Proof.
  unfold audio_writes. apply flat_map_app.
Qed.

Lemma after_chunk_requests (i : nat) (chunk : str) (st : state) :
  tts_requests (log (after_chunk w i chunk st))
  = tts_requests (log st) ++ [(i, chunk)].
Proof.
  unfold after_chunk.
  destruct (tts_generate w i chunk) as [e | [r |]];
    [| destruct (truthy_opt (audio_file r)) |];
    cbn [log logged]; now rewrite tts_requests_app.
Qed.

Lemma after_chunk_writes (i : nat) (chunk : str) (st : state) :
  audio_writes (log (after_chunk w i chunk st)) = audio_writes (log st).
Proof.
  unfold after_chunk.
  destruct (tts_generate w i chunk) as [e | [r |]];
    [| destruct (truthy_opt (audio_file r)) |];
    cbn [log logged]; rewrite audio_writes_app; simpl; now rewrite app_nil_r.
Qed.

(** One turn of the loop: the chunk's bytes are appended, or the turn
    raises. *)
Lemma speak_chunk_runs (i : nat) (chunk : str) (acc : bytes) (st : state) :
  match chunk_audio w i chunk with
  | Some b => speak_chunk w (i, chunk) acc st
              = (Val (acc ++ b), after_chunk w i chunk st)
  | None => exists e, speak_chunk w (i, chunk) acc st
                      = (Exc e, after_chunk w i chunk st)
  end.
Proof.
  unfold chunk_audio, after_chunk, speak_chunk, http_get, bind, emit,
    set_audio_url, ret, raise, logged.
  destruct (tts_generate w i chunk) as [e | [r |]]; cbn [fs log uuids audio_url].
  - eexists. reflexivity.
  - destruct (truthy_opt (audio_file r)); cbn [fs log uuids audio_url].
    + rewrite <- app_assoc. cbn [app].
      destruct (requests_get w (unwrap (audio_file r))) as [e | resp].
      * eexists. reflexivity.
      * destruct (status_code resp =? 200); [reflexivity |].
        now rewrite app_nil_r.
    + now rewrite app_nil_r.
  - now rewrite app_nil_r.
Qed.

(** The loop when no turn raises: the bytes are appended in chunk order,
    every chunk is sent once, nothing is written. *)
Lemma speak_all_runs (ics : list (nat * str)) (bs : list bytes) (acc : bytes)
  (st : state) :
  map (fun ic => chunk_audio w (fst ic) (snd ic)) ics = map Some bs ->
  exists st',
    fold_for ics acc (speak_chunk w) st = (Val (acc ++ concat bs), st')
    /\ tts_requests (log st') = tts_requests (log st) ++ ics
    /\ audio_writes (log st') = audio_writes (log st).
Proof.
  revert bs acc st. induction ics as [| [i chunk] ics IH]; intros bs acc st H.
  - destruct bs; [| discriminate]. exists st.
    simpl. now rewrite !app_nil_r.
  - destruct bs as [| b bs]; [discriminate |].
    cbn [map fst snd] in H. injection H as Hb Hrest.
    cbn [fold_for]. unfold bind at 1.
    pose proof (speak_chunk_runs i chunk acc st) as Hrun. rewrite Hb in Hrun.
    rewrite Hrun.
    destruct (IH bs (acc ++ b) (after_chunk w i chunk st) Hrest)
      as [st' [E [Hreq Hwr]]].
    exists st'. split; [| split].
    + rewrite E. cbn [concat]. now rewrite app_assoc.
    + rewrite Hreq, after_chunk_requests, <- app_assoc. reflexivity.
    + now rewrite Hwr, after_chunk_writes.
Qed.

(** The loop when some turn raises: the exception leaves the loop, nothing
    is written. *)
Lemma speak_all_raises (ics : list (nat * str)) (acc : bytes) (st : state) :
  forallb (fun ic => negb (raised (chunk_audio w (fst ic) (snd ic)))) ics = false ->
  exists e st',
    fold_for ics acc (speak_chunk w) st = (Exc e, st')
    /\ audio_writes (log st') = audio_writes (log st).
Proof.
  revert acc st. induction ics as [| [i chunk] ics IH]; intros acc st H;
    [discriminate |].
  cbn [forallb fst snd] in H.
  cbn [fold_for]. unfold bind at 1.
  pose proof (speak_chunk_runs i chunk acc st) as Hrun.
  destruct (chunk_audio w i chunk) as [b |].
  - rewrite Hrun. cbn [raised negb andb] in H.
    destruct (IH (acc ++ b) (after_chunk w i chunk st) H) as [e [st' [E Hwr]]].
    exists e, st'. split; [exact E |]. now rewrite Hwr, after_chunk_writes.
  - destruct Hrun as [e Hrun]. rewrite Hrun.
    exists e, (after_chunk w i chunk st). split; [reflexivity |].
    apply after_chunk_writes.
Qed.

(** Every list of chunks is of one of the two kinds. *)
Lemma contributions_decide (ics : list (nat * str)) :
  (exists bs, map (fun ic => chunk_audio w (fst ic) (snd ic)) ics = map Some bs)
  \/ forallb (fun ic => negb (raised (chunk_audio w (fst ic) (snd ic)))) ics = false.
Proof.
  induction ics as [| [i chunk] ics IH].
  - left. now exists [].
  - cbn [map forallb fst snd].
    destruct (chunk_audio w i chunk) as [b |]; [| now right].
    destruct IH as [[bs E] | E].
    + left. exists (b :: bs). cbn [map]. now rewrite E.
    + right. exact E.
Qed.

(** The [try] block of the synthesizer when no turn raises. *)
Lemma synthesize_runs (podcast_script : str) (bs : list bytes) (st : state) :
  contributions w podcast_script = map Some bs ->
  exists st1,
    tts_requests (log st1)
    = tts_requests (log st) ++ enumerate (chunks podcast_script)
    /\ audio_writes (log st1) = audio_writes (log st)
    /\ synthesize w podcast_script st
       = if nonempty (concat bs)
         then (Val tt,
               {| fs := fs st1;
                  log := log st1 ++ [WroteAudio (audio_path w) (concat bs)];
                  uuids := uuids st1;
                  audio_url := Some (served_audio_url w) |})
         else (Ret ([field "status" (JString (lit "success"));
                     field "script" (JString podcast_script);
                     field "audio_url" JNull;
                     field "warning" (JString (lit
                       "Failed to generate audio. The text might be too long or contain unsupported characters."))],
                    200), st1).
Proof.
  intros H.
  destruct (speak_all_runs (enumerate (chunks podcast_script)) bs [] st H)
    as [st1 [E [Hreq Hwr]]].
  exists st1. split; [exact Hreq |]. split; [exact Hwr |].
  unfold synthesize, try_except. unfold bind at 1. rewrite E.
  cbn [app]. destruct (concat bs) as [| b0 data]; reflexivity.
Qed.

(** The [try] block of the synthesizer when some turn raises. *)
Lemma synthesize_raises (podcast_script : str) (st : state) :
  forallb (fun o => negb (raised o)) (contributions w podcast_script) = false ->
  exists st1,
    synthesize w podcast_script st = (Val tt, st1)
    /\ audio_writes (log st1) = audio_writes (log st).
Proof.
  intros H. unfold contributions in H. rewrite forallb_of_map in H.
  destruct (speak_all_raises (enumerate (chunks podcast_script)) [] st H)
    as [e [st1 [E Hwr]]].
  exists st1. split; [| exact Hwr].
  unfold synthesize, try_except. unfold bind at 1. now rewrite E.
Qed.

End Speech.

Section SpeechReplies.

Variable w : World.

(** With a TTS client, the reply is the one the [try] block returns, or the
    plain success reply built from [audio_url]. *)
Lemma speech_unfold (podcast_script key : str) (st : state) :
  murf_client w = Some key ->
  speech w podcast_script st
  = match synthesize w podcast_script (without_audio_url st) with
    | (Val _, st1) => (Ret (success_reply podcast_script (audio_url st1)), st1)
    | (Ret r, st1) => (Ret r, st1)
    | (Exc e, st1) => (Exc e, st1)
    end.
Proof.
  intros Hk. unfold speech, set_audio_url, when. rewrite Hk.
  unfold bind at 1. unfold bind at 1. unfold ret at 1. unfold bind at 1.
  fold (without_audio_url st).
  destruct (synthesize w podcast_script (without_audio_url st))
    as [[[] | e | r] st1]; reflexivity.
Qed.

Lemma map_snd_enumerate {A : Type} (l : list A) : map snd (enumerate l) = l.
Proof.
  unfold enumerate. generalize 0.
  induction l as [| x l IH]; intros n; [reflexivity |].
  simpl. now rewrite IH.
Qed.

Lemma map_fst_enumerate {A : Type} (l : list A) :
  map fst (enumerate l) = seq 0 (length (enumerate l)).
Proof.
  unfold enumerate. generalize 0.
  induction l as [| x l IH]; intros n; [reflexivity |].
  simpl. now rewrite IH.
Qed.

(** Every chunk has between 1 and 3000 characters. *)
Lemma chunks_bounded (s chunk : str) :
  In chunk (chunks s) -> 0 < length chunk <= 3000.
Proof.
  intros Hin.
  destruct (In_nth _ _ [] Hin) as [k [Hk E]].
  destruct (chunks_of_nth 3000 s k Hk) as [Eslice Hlt].
  unfold chunks in E. unfold max_chunk_length in E.
  rewrite Eslice in E. rewrite <- E, length_slice. lia.
Qed.

End SpeechReplies.

(** X14.  When no chunk raises and at least one download gives bytes, the
    audio file holds the downloaded bytes of the chunks in chunk order (the
    chunks that gave none are skipped), it is written once, under
    [static/audio/podcast_<timestamp>.mp3], and the reply carries its URL and
    no warning. *)
Theorem audio_is_the_chunks_in_order
  (w : World) (podcast_script key : str) (bs : list bytes) (st : state) :
  murf_client w = Some key ->
  contributions w podcast_script = map Some bs ->
  nonempty (concat bs) = true ->
  exists st',
    speech w podcast_script st
    = (Ret (success_reply podcast_script (Some (served_audio_url w))), st')
    /\ audio_writes (log st')
       = audio_writes (log st) ++ [(audio_path w, concat bs)].
Proof.
  intros Hk Hc Hne.
  rewrite (speech_unfold w podcast_script key st Hk).
  destruct (synthesize_runs w podcast_script bs (without_audio_url st) Hc)
    as [st1 [_ [Hwr E]]].
  rewrite E, Hne. eexists. split; [reflexivity |].
  cbn [log]. rewrite audio_writes_app, Hwr. reflexivity.
Qed.

Lemma audio_is_the_chunks_in_order_witness :
  exists st',
    speech happy_world the_script (initial [])
    = (Ret (success_reply the_script (Some (served_audio_url happy_world))), st')
    /\ audio_writes (log st')
       = audio_writes (log (initial []))
         ++ [(audio_path happy_world, concat [[x49; x44; x33]])].
Proof.
  apply (audio_is_the_chunks_in_order happy_world the_script (lit "key")
           [[x49; x44; x33]] (initial []));
    reflexivity.
Defined.

(** X15.  When no chunk raises and no download gives bytes, no file is
    written and the reply is the script with [audio_url] null and the
    warning "Failed to generate audio. ...". *)
Theorem no_audio_bytes_gives_warning
  (w : World) (podcast_script key : str) (bs : list bytes) (st : state) :
  murf_client w = Some key ->
  contributions w podcast_script = map Some bs ->
  nonempty (concat bs) = false ->
  exists st',
    speech w podcast_script st
    = (Ret (warning_reply podcast_script no_audio_warning), st')
    /\ audio_writes (log st') = audio_writes (log st).
Proof.
  intros Hk Hc Hne.
  rewrite (speech_unfold w podcast_script key st Hk).
  destruct (synthesize_runs w podcast_script bs (without_audio_url st) Hc)
    as [st1 [_ [Hwr E]]].
  rewrite E, Hne. exists st1. split; [reflexivity | exact Hwr].
Qed.

Lemma no_audio_bytes_gives_warning_witness :
  exists st',
    speech not_found_world the_script (initial [])
    = (Ret (warning_reply the_script no_audio_warning), st')
    /\ audio_writes (log st') = audio_writes (log (initial [])).
Proof.
  apply (no_audio_bytes_gives_warning not_found_world the_script (lit "key")
           [[]] (initial []));
    reflexivity.
Defined.

(** X16.  When no chunk raises, the TTS service is asked once per chunk, in
    chunk order; the texts it receives have between 1 and 3000 characters
    each and, put end to end, are the script. *)
Theorem script_is_sent_chunk_by_chunk
  (w : World) (podcast_script key : str) (bs : list bytes) (st : state) :
  murf_client w = Some key ->
  contributions w podcast_script = map Some bs ->
  exists r st' sent,
    speech w podcast_script st = (Ret r, st')
    /\ tts_requests (log st') = tts_requests (log st) ++ sent
    /\ map fst sent = seq 0 (length sent)
    /\ concat (map snd sent) = podcast_script
    /\ Forall (fun ic => 0 < length (snd ic) <= 3000) sent.
Proof.
  intros Hk Hc.
  rewrite (speech_unfold w podcast_script key st Hk).
  destruct (synthesize_runs w podcast_script bs (without_audio_url st) Hc)
    as [st1 [Hreq [_ E]]].
  assert (Hsent : map fst (enumerate (chunks podcast_script))
                  = seq 0 (length (enumerate (chunks podcast_script)))
                  /\ concat (map snd (enumerate (chunks podcast_script)))
                     = podcast_script
                  /\ Forall (fun ic => 0 < length (snd ic) <= 3000)
                       (enumerate (chunks podcast_script))).
  { split; [| split].
    - apply map_fst_enumerate.
    - rewrite map_snd_enumerate.
      apply (chunks_of_spec max_chunk_length podcast_script).
      unfold max_chunk_length. apply Nat.lt_0_succ.
    - apply Forall_forall. intros [i c] Hin.
      apply (chunks_bounded podcast_script c).
      rewrite <- (map_snd_enumerate (chunks podcast_script)).
      apply (in_map snd) in Hin. exact Hin. }
  rewrite E.
  destruct (nonempty (concat bs)); eexists; eexists;
    exists (enumerate (chunks podcast_script));
    (split; [reflexivity |]); (split; [| exact Hsent]);
    cbn [log]; rewrite ?tts_requests_app, Hreq; simpl; now rewrite ?app_nil_r.
Qed.

Lemma script_is_sent_chunk_by_chunk_witness :
  exists r st' sent,
    speech happy_world two_chunk_script (initial []) = (Ret r, st')
    /\ tts_requests (log st') = tts_requests (log (initial [])) ++ sent
    /\ map fst sent = seq 0 (length sent)
    /\ concat (map snd sent) = two_chunk_script
    /\ Forall (fun ic => 0 < length (snd ic) <= 3000) sent.
Proof.
  apply (script_is_sent_chunk_by_chunk happy_world two_chunk_script (lit "key")
           [[x49; x44; x33]; [x49; x44; x33]] (initial []));
    vm_compute; reflexivity.
Defined.

(** X17.  When the TTS call or the download raises for some chunk, the
    bytes collected so far are dropped: no audio file is written, and the
    reply is the plain success reply, without a warning, whose [audio_url]
    is whatever the local variable held when the exception occurred. *)
Theorem tts_exception_discards_audio
  (w : World) (podcast_script key : str) (st : state) :
  murf_client w = Some key ->
  forallb (fun o => negb (raised o)) (contributions w podcast_script) = false ->
  exists url st',
    speech w podcast_script st
    = (Ret (success_reply podcast_script url), st')
    /\ audio_url st' = url
    /\ audio_writes (log st') = audio_writes (log st).
Proof.
  intros Hk Hc.
  rewrite (speech_unfold w podcast_script key st Hk).
  destruct (synthesize_raises w podcast_script (without_audio_url st) Hc)
    as [st1 [E Hwr]].
  rewrite E. exists (audio_url st1), st1.
  split; [reflexivity |]. split; [reflexivity | exact Hwr].
Qed.

Lemma tts_exception_discards_audio_witness :
  exists url st',
    speech tiring_world two_chunk_script (initial [])
    = (Ret (success_reply two_chunk_script url), st')
    /\ audio_url st' = url
    /\ audio_writes (log st') = audio_writes (log (initial [])).
Proof.
  apply (tts_exception_discards_audio tiring_world two_chunk_script (lit "key")
           (initial []));
    vm_compute; reflexivity.
Defined.

(** ** The replies of the handler *)

Section Replies.

Variable w : World.

Ltac same_speech :=
  cbn [fst snd];
  unfold no_speech_between, logged, after_upload, after_pdf_download;
  cbn [log]; rewrite ?tts_requests_app, ?audio_writes_app; simpl;
  rewrite ?app_nil_r; split; reflexivity.

Lemma no_speech_refl (st : state) : no_speech_between st st.
Proof.
  now split.
Qed.

Lemma no_speech_trans (a b c : state) :
  no_speech_between a b -> no_speech_between b c -> no_speech_between a c.
Proof.
  intros [H1 H2] [H3 H4]. split; congruence.
Qed.

(** [read_source] either leaves a text, or returns a client error, or
    raises; it never reaches the TTS service. *)
Lemma read_source_outcome (req : request) (st : state) :
  no_speech_between st (snd (read_source w req st))
  /\ match fst (read_source w req st) with
     | Ret r => exists msg, r = ([field "error" (JString msg)], 400)
     | _ => True
     end.
Proof.
  destruct (within_limit req) eqn:Hsize.
  2:{ rewrite (read_source_oversize w req st Hsize).
      split; [apply no_speech_refl | exact I]. }
  destruct (files_file req) as [file |] eqn:Hf.
  - destruct (truthy (filename file)) eqn:Hn.
    + destruct (endswith (lower (filename file)) (lit ".pdf")) eqn:He.
      * rewrite (read_accepted_upload w req file st Hsize Hf Hn He).
        split; [same_speech | exact I].
      * rewrite (read_source_within w req st Hsize).
        unfold read_parts. rewrite Hf, Hn, He.
        destruct (filename file); [discriminate |].
        split; [apply no_speech_refl | eexists; reflexivity].
    + rewrite (read_source_within w req st Hsize).
      unfold read_parts. rewrite Hf.
      destruct (filename file); [| discriminate].
      split; [apply no_speech_refl | eexists; reflexivity].
  - rewrite (read_source_within w req st Hsize).
    unfold read_parts. rewrite Hf.
    destruct (is_json req); [| split; [apply no_speech_refl | exact I]].
    destruct (get_json req) as [e | url];
      [split; [apply no_speech_refl | exact I] |].
    unfold bind, when.
    destruct (truthy_opt url);
      [| split; [apply no_speech_refl | eexists; reflexivity]].
    cbn [negb]. unfold ret.
    rewrite extract_text_from_url_unfold.
    destruct (requests_get w (unwrap url)) as [e | r];
      [split; [same_speech | exact I] |].
    destruct (contains (content_type r) (lit "application/pdf"));
      (split; [same_speech | exact I]).
Qed.

Lemma script_generation_no_speech (R : Type) (text : str) (st : state) :
  no_speech_between st (snd (generate_podcast_script (R := R) w text st)).
Proof.
  destruct (truthy (strip text)) eqn:Ht.
  - rewrite script_of_loop by exact Ht. cbv zeta.
    destruct (retry_loop_runs w (prompt text) st); cbn [snd]; same_speech.
  - rewrite script_of_blank by exact Ht. apply no_speech_refl.
Qed.

(** The replies of the speech stage. *)
Lemma speech_outcome (podcast_script : str) (st : state) :
  truthy podcast_script = true ->
  exists r st',
    speech w podcast_script st = (Ret r, st') /\ reply_shape r
    /\ (murf_client w = None ->
        r = warning_reply podcast_script no_tts_warning
        /\ no_speech_between st st').
Proof.
  intros Hs.
  destruct (murf_client w) as [key |] eqn:Hk.
  - rewrite (speech_unfold w podcast_script key st Hk).
    destruct (contributions_decide w (enumerate (chunks podcast_script)))
      as [[bs Hc] | Hc].
    + destruct (synthesize_runs w podcast_script bs (without_audio_url st) Hc)
        as [st1 [_ [_ E]]].
      rewrite E.
      destruct (nonempty (concat bs)); eexists; eexists;
        (split; [reflexivity |]); (split; [| discriminate]).
      * now apply shape_success.
      * now apply shape_script_only.
    + assert (Hc' : forallb (fun o => negb (raised o))
                      (contributions w podcast_script) = false)
        by (unfold contributions; now rewrite forallb_of_map).
      destruct (synthesize_raises w podcast_script (without_audio_url st) Hc')
        as [st1 [E _]].
      rewrite E. eexists. eexists.
      split; [reflexivity |]. split; [| discriminate].
      now apply shape_success.
  - unfold speech, bind, set_audio_url, when. rewrite Hk.
    eexists. eexists. split; [reflexivity |]. split.
    + now apply shape_script_only.
    + intros _. split; [reflexivity | split; reflexivity].
Qed.

(** [respond] returns a reply, or raises when the script cannot be written,
    which the outer handler turns into the generic reply. *)
Lemma respond_outcome (paper_text : option str) (st : state) :
  match respond w paper_text st with
  | (Ret r, st') =>
      reply_shape r
      /\ (murf_client w = None ->
          no_speech_between st st'
          /\ (snd r = 200 ->
              exists script, r = warning_reply script no_tts_warning))
  | (Exc _, st') => murf_client w = None -> no_speech_between st st'
  | (Val _, _) => False
  end.
Proof.
  unfold respond, bind, when.
  destruct (truthy_opt paper_text).
  2:{ split; [apply shape_client_error |].
      intros _. split; [apply no_speech_refl | discriminate]. }
  cbn [negb]. unfold ret at 1.
  pose proof (script_generation_no_speech reply (unwrap paper_text) st) as Hgen.
  destruct (generate_podcast_script_returns w reply (unwrap paper_text) st)
    as [v [st1 E]].
  rewrite E in *. cbn [snd] in Hgen.
  destruct (truthy_opt v) eqn:Hv.
  2:{ split; [apply shape_server_error |].
      intros _. split; [exact Hgen | discriminate]. }
  cbn [negb]. unfold ret at 1. unfold new_uuid at 1. unfold write_script.
  destruct (existsb is_surrogate (unwrap v)).
  { unfold bind, emit, raise. intros _.
    apply (no_speech_trans st st1 _ Hgen). same_speech. }
  unfold emit at 1.
  match goal with |- context [speech w ?s ?st2] =>
    destruct (speech_outcome s st2) as [r [st' [Es [Hshape Hnone]]]];
      [destruct v; [exact Hv | discriminate] |];
      rewrite Es; split; [exact Hshape |];
      intros Hk; destruct (Hnone Hk) as [-> Hquiet]; split;
      [apply (no_speech_trans st st1 st' Hgen);
       apply (no_speech_trans st1 st2 st'); [same_speech | exact Hquiet]
      | intros _; eexists; reflexivity]
  end.
Qed.

End Replies.

(** X18.  Whatever the request and whatever the outside does, the view hands
    a reply to the framework and never an exception, and the reply has one
    of four shapes: an error message with status 400, an error message with
    status 500, the script with [audio_url] null and a warning (status 200),
    or the script and [audio_url] without a warning (status 200).  The
    script of a status-200 reply is never empty. *)
Theorem every_reply_is_well_formed
  (w : World) (R : Type) (req : request) (st : state) :
  exists r st',
    generate_podcast (R := R) w req st = (Val r, st') /\ reply_shape r.
Proof.
  destruct (read_source w req st) as [[paper_text | e | r] st1] eqn:Hsrc.
  - rewrite (generate_podcast_of_text w R req st st1 paper_text Hsrc).
    pose proof (respond_outcome w paper_text st1) as H.
    destruct (respond w paper_text st1) as [[v | e | r] st'];
      [destruct H | |]; eexists; eexists;
      (split; [reflexivity |]);
      [apply shape_server_error | exact (proj1 H)].
  - rewrite (generate_podcast_of_exception w R req st st1 e Hsrc).
    eexists. eexists. split; [reflexivity | apply shape_server_error].
  - rewrite (generate_podcast_of_return w R req st st1 r Hsrc).
    exists r, st1. split; [reflexivity |].
    pose proof (read_source_outcome w req st) as [_ H].
    rewrite Hsrc in H. cbn [fst] in H. destruct H as [msg ->].
    apply shape_client_error.
Qed.

(** X19.  Without a TTS client the handler works in script-only mode: it
    never calls the TTS service and never writes an audio file, and every
    status-200 reply is the script with [audio_url] null and the warning
    "Text-to-speech service not available". *)
Theorem no_client_means_script_only
  (w : World) (R : Type) (req : request) (st : state) :
  murf_client w = None ->
  exists r st',
    generate_podcast (R := R) w req st = (Val r, st')
    /\ no_speech_between st st'
    /\ (snd r = 200 -> exists script, r = warning_reply script no_tts_warning).
Proof.
  intros Hk.
  pose proof (read_source_outcome w req st) as [Hquiet Hret].
  destruct (read_source w req st) as [[paper_text | e | r] st1] eqn:Hsrc;
    cbn [fst snd] in *.
  - rewrite (generate_podcast_of_text w R req st st1 paper_text Hsrc).
    pose proof (respond_outcome w paper_text st1) as H.
    destruct (respond w paper_text st1) as [[v | e | r] st'];
      [destruct H | |]; eexists; exists st'; (split; [reflexivity |]).
    + split; [exact (no_speech_trans st st1 st' Hquiet (H Hk)) | discriminate].
    + destruct H as [_ H]. destruct (H Hk) as [Hq Hr].
      split; [exact (no_speech_trans st st1 st' Hquiet Hq) | exact Hr].
  - rewrite (generate_podcast_of_exception w R req st st1 e Hsrc).
    eexists. eexists. split; [reflexivity |]. split; [exact Hquiet | discriminate].
  - rewrite (generate_podcast_of_return w R req st st1 r Hsrc).
    exists r, st1. split; [reflexivity |]. split; [exact Hquiet |].
    destruct Hret as [msg ->]. discriminate.
Qed.

Lemma no_client_means_script_only_witness :
  exists r st',
    generate_podcast (R := reply) script_only_world
      (upload_request (lit "paper.pdf")) (initial [])
    = (Val r, st')
    /\ no_speech_between (initial []) st'
    /\ (snd r = 200 -> exists script, r = warning_reply script no_tts_warning).
Proof.
  apply (no_client_means_script_only script_only_world reply
           (upload_request (lit "paper.pdf")) (initial [])).
  reflexivity.
Defined.

(** * Properties of [utils/audio_utils.py] and of the start-up *)

Section AudioUtilsFacts.

Import AudioUtils.

Lemma cut_is_short (text : str) :
  length (if N.to_nat 5000 <? length text
          then slice text 0 (N.to_nat 5000) else text) <= N.to_nat 5000.
Proof.
  destruct (Nat.ltb_spec (N.to_nat 5000) (length text)) as [H | H].
  - rewrite length_slice. lia.
  - exact H.
Qed.

Lemma cut_is_firstn (text : str) :
  (if N.to_nat 5000 <? length text
   then slice text 0 (N.to_nat 5000) else text)
  = firstn (N.to_nat 5000) text.
Proof.
  destruct (Nat.ltb_spec (N.to_nat 5000) (length text)) as [H | H].
  - reflexivity.
  - symmetry. now apply firstn_all2.
Qed.

Lemma char_eqb_eq (a b : char) : char_eqb a b = true -> a = b.
Proof.
  apply N.eqb_eq.
Qed.

Lemma str_eqb_eq (a b : str) : str_eqb a b = true -> a = b.
Proof.
  revert b. induction a as [| x a IH]; intros [| y b] H;
    try discriminate; [reflexivity |].
  simpl in H. apply andb_true_iff in H as [Hx Hab].
  apply char_eqb_eq in Hx. apply IH in Hab. congruence.
Qed.

End AudioUtilsFacts.

(** X20.  A client that [MurfAIClient(...)] returns always has a non-empty
    api key, taken from the argument, else from [MURF_API_KEY], else from
    [MURFAI_API_KEY], an empty string counting as missing; it holds no audio
    yet. *)
Theorem client_key_comes_from_argument_then_environment
  (host : AudioUtils.Host) (env : AudioUtils.Env) (arg : option str)
  (c : AudioUtils.MurfAIClient) :
  AudioUtils.init host env arg = inr c ->
  AudioUtils.MURF_AVAILABLE host = true
  /\ truthy (AudioUtils.api_key c) = true
  /\ AudioUtils.last_audio_data c = None
  /\ (truthy_opt arg = true -> Some (AudioUtils.api_key c) = arg)
  /\ (truthy_opt arg = false ->
      truthy_opt (AudioUtils.MURF_API_KEY env) = true ->
      Some (AudioUtils.api_key c) = AudioUtils.MURF_API_KEY env)
  /\ (truthy_opt arg = false ->
      truthy_opt (AudioUtils.MURF_API_KEY env) = false ->
      Some (AudioUtils.api_key c) = AudioUtils.MURFAI_API_KEY env).
Proof.
  intros H. unfold AudioUtils.init, AudioUtils.or_ in H.
  destruct (AudioUtils.MURF_AVAILABLE host); cbn [negb] in H;
    [| discriminate H].
  split; [reflexivity |].
  destruct arg as [[| a0 arg] |],
           (AudioUtils.MURF_API_KEY env) as [[| b0 k1] |],
           (AudioUtils.MURFAI_API_KEY env) as [[| c0 k2] |];
    cbn [truthy_opt truthy negb unwrap] in H; try discriminate H;
    (destruct (AudioUtils.Murf host _); [discriminate H |]);
    injection H as <-; cbn; repeat split; try discriminate; auto.
Qed.

Lemma client_key_comes_from_argument_then_environment_witness :
  AudioUtils.MURF_AVAILABLE (AudioUtils.host_of true AudioUtils.echo) = true
  /\ truthy (lit "k2") = true
  /\ @None bytes = None
  /\ (truthy_opt None = true -> Some (lit "k2") = None)
  /\ (truthy_opt None = false -> truthy_opt (Some []) = true ->
      Some (lit "k2") = Some [])
  /\ (truthy_opt None = false -> truthy_opt (Some []) = false ->
      Some (lit "k2") = Some (lit "k2")).
Proof.
  apply (client_key_comes_from_argument_then_environment
           (AudioUtils.host_of true AudioUtils.echo)
           (AudioUtils.env_of (Some []) (Some (lit "k2")) None) None
           {| AudioUtils.api_key := lit "k2";
              AudioUtils.last_audio_data := None |}).
  reflexivity.
Defined.

(** X21.  [create_tts_job] never hands more than 5000 characters to the
    SDK: its result is that for the first 5000 characters of the text, and
    it is the same with any SDK that agrees on the texts of at most 5000
    characters. *)
Theorem job_text_is_cut_at_5000
  (host host' : AudioUtils.Host) (self : AudioUtils.MurfAIClient)
  (text voice_id format : str) :
  AudioUtils.MURF_AVAILABLE host = AudioUtils.MURF_AVAILABLE host' ->
  (forall t, length t <= N.to_nat 5000 ->
     AudioUtils.generate host t voice_id format
     = AudioUtils.generate host' t voice_id format) ->
  AudioUtils.create_tts_job host self text voice_id format
  = AudioUtils.create_tts_job host' self text voice_id format
  /\ AudioUtils.create_tts_job host self text voice_id format
     = AudioUtils.create_tts_job host self (firstn (N.to_nat 5000) text)
         voice_id format.
Proof.
  intros Hav Hgen. unfold AudioUtils.create_tts_job. split.
  - rewrite <- Hav.
    destruct (AudioUtils.MURF_AVAILABLE host); [| reflexivity].
    cbn [negb]. now rewrite (Hgen _ (cut_is_short text)).
  - destruct (AudioUtils.MURF_AVAILABLE host); [| reflexivity].
    cbn [negb].
    now rewrite (cut_is_firstn text), (cut_is_firstn (firstn _ text)),
      firstn_firstn, Nat.min_id.
Qed.

Lemma job_text_is_cut_at_5000_witness :
  AudioUtils.create_tts_job (AudioUtils.host_of true AudioUtils.echo)
    AudioUtils.fresh_client (long_text (lit "left out")) (lit "en-US-terrell")
    (lit "mp3")
  = AudioUtils.create_tts_job (AudioUtils.host_of true AudioUtils.picky)
      AudioUtils.fresh_client (long_text (lit "left out")) (lit "en-US-terrell")
      (lit "mp3")
  /\ AudioUtils.create_tts_job (AudioUtils.host_of true AudioUtils.echo)
       AudioUtils.fresh_client (long_text (lit "left out"))
       (lit "en-US-terrell") (lit "mp3")
     = AudioUtils.create_tts_job (AudioUtils.host_of true AudioUtils.echo)
         AudioUtils.fresh_client
         (firstn (N.to_nat 5000) (long_text (lit "left out")))
         (lit "en-US-terrell") (lit "mp3").
Proof.
  apply (job_text_is_cut_at_5000 (AudioUtils.host_of true AudioUtils.echo)
           (AudioUtils.host_of true AudioUtils.picky)).
  - reflexivity.
  - intros t Ht. cbn [AudioUtils.generate AudioUtils.host_of].
    unfold AudioUtils.picky.
    destruct (Nat.ltb_spec (N.to_nat 5000) (length t)); [lia | reflexivity].
Defined.

(** X22.  A job that [create_tts_job] reports as created has the id
    ["direct_audio"] and leaves the audio in the client; asking for its
    status or waiting for it gives that audio back as completed, unless the
    audio is empty, in which case the job just created is reported as
    failed. *)
Theorem created_job_can_be_collected
  (host : AudioUtils.Host) (self self' : AudioUtils.MurfAIClient)
  (text voice_id format job_id : str) (poll_interval max_attempts : nat) :
  AudioUtils.create_tts_job host self text voice_id format
  = (self', Some job_id) ->
  exists d,
    job_id = AudioUtils.direct_audio
    /\ AudioUtils.last_audio_data self' = Some d
    /\ AudioUtils.api_key self' = AudioUtils.api_key self
    /\ AudioUtils.wait_for_job_completion self' job_id poll_interval max_attempts
       = (if nonempty d
          then Some {| AudioUtils.job_status := lit "completed";
                       AudioUtils.audio_data := d;
                       AudioUtils.download_url := None |}
          else None)
    /\ snd (AudioUtils.get_job_status self' job_id)
       = (if nonempty d then lit "completed" else lit "failed").
Proof.
  unfold AudioUtils.create_tts_job.
  destruct (AudioUtils.MURF_AVAILABLE host); [| discriminate].
  cbn [negb].
  destruct (AudioUtils.generate host _ voice_id format) as [e | r];
    [discriminate |].
  destruct (AudioUtils.audio_file r) as [[d | e] |]; try discriminate.
  intros H. injection H as <- <-. exists d.
  unfold AudioUtils.wait_for_job_completion, AudioUtils.get_job_status,
    AudioUtils.has_audio.
  rewrite str_eqb_refl. cbn.
  destruct d; repeat split; reflexivity.
Qed.

Lemma created_job_can_be_collected_witness :
  exists d,
    AudioUtils.direct_audio = AudioUtils.direct_audio
    /\ AudioUtils.last_audio_data
         {| AudioUtils.api_key := lit "key";
            AudioUtils.last_audio_data := Some [x41; x41] |} = Some d
    /\ lit "key" = AudioUtils.api_key AudioUtils.fresh_client
    /\ AudioUtils.wait_for_job_completion
         {| AudioUtils.api_key := lit "key";
            AudioUtils.last_audio_data := Some [x41; x41] |}
         AudioUtils.direct_audio 1 5
       = (if nonempty d
          then Some {| AudioUtils.job_status := lit "completed";
                       AudioUtils.audio_data := d;
                       AudioUtils.download_url := None |}
          else None)
    /\ snd (AudioUtils.get_job_status
              {| AudioUtils.api_key := lit "key";
                 AudioUtils.last_audio_data := Some [x41; x41] |}
              AudioUtils.direct_audio)
       = (if nonempty d then lit "completed" else lit "failed").
Proof.
  apply (created_job_can_be_collected
           (AudioUtils.host_of true AudioUtils.echo) AudioUtils.fresh_client
           {| AudioUtils.api_key := lit "key";
              AudioUtils.last_audio_data := Some [x41; x41] |}
           (lit "hi") (lit "en-US-terrell") (lit "mp3")
           AudioUtils.direct_audio 1 5).
  reflexivity.
Defined.

(** X23.  A job that [create_tts_job] does not create leaves the client as
    it was: the audio of an earlier job stays, and the status of
    ["direct_audio"] is answered as before. *)
Theorem failed_job_keeps_earlier_audio
  (host : AudioUtils.Host) (self self' : AudioUtils.MurfAIClient)
  (text voice_id format : str) :
  AudioUtils.create_tts_job host self text voice_id format = (self', None) ->
  self' = self
  /\ AudioUtils.get_job_status self' AudioUtils.direct_audio
     = AudioUtils.get_job_status self AudioUtils.direct_audio.
Proof.
  unfold AudioUtils.create_tts_job.
  destruct (AudioUtils.MURF_AVAILABLE host); cbn [negb].
  - destruct (AudioUtils.generate host _ voice_id format) as [e | r].
    + intros H. injection H as <-. now split.
    + destruct (AudioUtils.audio_file r) as [[d | e] |];
        try discriminate; intros H; injection H as <-; now split.
  - intros H. injection H as <-. now split.
Qed.

Lemma failed_job_keeps_earlier_audio_witness :
  {| AudioUtils.api_key := lit "key";
     AudioUtils.last_audio_data := Some [x41] |}
  = {| AudioUtils.api_key := lit "key";
       AudioUtils.last_audio_data := Some [x41] |}
  /\ AudioUtils.get_job_status
       {| AudioUtils.api_key := lit "key";
          AudioUtils.last_audio_data := Some [x41] |} AudioUtils.direct_audio
     = AudioUtils.get_job_status
         {| AudioUtils.api_key := lit "key";
            AudioUtils.last_audio_data := Some [x41] |} AudioUtils.direct_audio.
Proof.
  apply (failed_job_keeps_earlier_audio
           (AudioUtils.host_of false AudioUtils.echo)
           {| AudioUtils.api_key := lit "key";
              AudioUtils.last_audio_data := Some [x41] |}
           {| AudioUtils.api_key := lit "key";
              AudioUtils.last_audio_data := Some [x41] |}
           (lit "hello") (lit "en-US-terrell") (lit "mp3")).
  reflexivity.
Defined.

(** X24.  [get_job_status] and [wait_for_job_completion] always agree:
    waiting gives a job exactly when the status is "completed", only for the
    id ["direct_audio"], and the job then carries the client's non-empty
    audio and no download URL. *)
Theorem status_and_wait_agree
  (self : AudioUtils.MurfAIClient) (job_id : str)
  (poll_interval max_attempts : nat) :
  match AudioUtils.wait_for_job_completion self job_id poll_interval max_attempts
  with
  | Some j =>
      AudioUtils.get_job_status self job_id
      = (Some [("status"%string, lit "completed")], lit "completed")
      /\ job_id = AudioUtils.direct_audio
      /\ AudioUtils.last_audio_data self = Some (AudioUtils.audio_data j)
      /\ nonempty (AudioUtils.audio_data j) = true
      /\ AudioUtils.download_url j = None
  | None => AudioUtils.get_job_status self job_id = (None, lit "failed")
  end.
Proof.
  unfold AudioUtils.wait_for_job_completion, AudioUtils.get_job_status,
    AudioUtils.has_audio.
  destruct (str_eqb job_id AudioUtils.direct_audio) eqn:E; [| reflexivity].
  apply str_eqb_eq in E.
  destruct (AudioUtils.last_audio_data self) as [[| b d] |]; cbn;
    try reflexivity.
  repeat split; auto.
Qed.

(** X25.  [text_to_speech] never returns a URL and never raises; when it
    returns bytes they are what the SDK's stream gave for the whole text (it
    is not cut at 5000 characters) and the lower-cased format. *)
Theorem text_to_speech_gives_bytes_or_nothing
  (host : AudioUtils.Host) (self : AudioUtils.MurfAIClient)
  (text voice_id output_format : str) :
  snd (AudioUtils.text_to_speech host self text voice_id output_format) = None
  /\ forall d,
       fst (AudioUtils.text_to_speech host self text voice_id output_format)
       = Some d ->
       AudioUtils.MURF_AVAILABLE host = true
       /\ AudioUtils.generate host text voice_id
            (AudioUtils.str_lower host output_format)
          = AudioUtils.SdkReturns
              {| AudioUtils.audio_file := Some (AudioUtils.Stream d) |}.
Proof.
  unfold AudioUtils.text_to_speech.
  destruct (AudioUtils.MURF_AVAILABLE host); cbn [negb];
    [| split; [reflexivity | discriminate]].
  destruct (AudioUtils.generate host text voice_id _) as [e | [af]];
    [split; [reflexivity | discriminate] |].
  cbn [AudioUtils.audio_file].
  destruct af as [[d | e] |]; (split; [reflexivity |]);
    try discriminate.
  intros d' H. injection H as <-. now split.
Qed.

(** X26.  When [save_audio] returns a path, the file under that path holds
    exactly the audio that was passed; the path is the one that was asked
    for, or a fresh temporary name ending in [.mp3]. *)
Theorem saved_audio_can_be_read_back
  (host : AudioUtils.Host) (files files' : list (str * bytes))
  (audio_data : AudioUtils.audio_arg) (output_path : option str) (p : str) :
  AudioUtils.save_audio host files audio_data output_path = (files', Some p) ->
  (exists b,
     lookup files' p = Some b
     /\ (audio_data = AudioUtils.Raw b
         \/ audio_data = AudioUtils.FileLike (AudioUtils.Stream b)))
  /\ match output_path with
     | Some q => p = q
     | None => exists stem, AudioUtils.mkstemp host = Some stem
                            /\ p = stem ++ lit ".mp3"
     end.
Proof.
  unfold AudioUtils.save_audio.
  assert (W : forall q,
             AudioUtils.write_audio files q audio_data = (files', Some p) ->
             p = q
             /\ exists b,
                  lookup files' p = Some b
                  /\ (audio_data = AudioUtils.Raw b
                      \/ audio_data = AudioUtils.FileLike (AudioUtils.Stream b))).
  { intros q. unfold AudioUtils.write_audio, AudioUtils.write.
    destruct audio_data as [b | [b | e]]; try discriminate;
      intros H; injection H as <- <-; (split; [reflexivity |]);
      exists b; cbn [lookup]; rewrite str_eqb_refl; auto. }
  destruct output_path as [q |].
  - destruct (AudioUtils.can_open host q); [| discriminate].
    intros H. destruct (W q H) as [-> Hb]. now split.
  - destruct (AudioUtils.mkstemp host) as [stem |]; [| discriminate].
    intros H. destruct (W _ H) as [-> Hb]. split; [exact Hb |].
    now exists stem.
Qed.

Lemma saved_audio_can_be_read_back_witness :
  (exists b,
     lookup [(lit "/tmp/tmpq7.mp3", [x49; x44; x33])] (lit "/tmp/tmpq7.mp3")
     = Some b
     /\ (AudioUtils.Raw [x49; x44; x33] = AudioUtils.Raw b
         \/ AudioUtils.Raw [x49; x44; x33]
            = AudioUtils.FileLike (AudioUtils.Stream b)))
  /\ exists stem,
       AudioUtils.mkstemp (AudioUtils.host_of true AudioUtils.echo) = Some stem
       /\ lit "/tmp/tmpq7.mp3" = stem ++ lit ".mp3".
Proof.
  apply (saved_audio_can_be_read_back
           (AudioUtils.host_of true AudioUtils.echo) []
           [(lit "/tmp/tmpq7.mp3", [x49; x44; x33])]
           (AudioUtils.Raw [x49; x44; x33]) None (lit "/tmp/tmpq7.mp3")).
  reflexivity.
Defined.

(** X27.  When the file-like object passed to [save_audio] raises on
    [read()], no path is returned, and the target file, which was opened
    for writing first, is left empty: what it held before is lost. *)
Theorem failed_read_leaves_an_empty_file
  (host : AudioUtils.Host) (files : list (str * bytes)) (e : exn) (q : str) :
  AudioUtils.can_open host q = true ->
  snd (AudioUtils.save_audio host files
         (AudioUtils.FileLike (AudioUtils.BrokenStream e)) (Some q)) = None
  /\ lookup (fst (AudioUtils.save_audio host files
                    (AudioUtils.FileLike (AudioUtils.BrokenStream e)) (Some q)))
       q = Some [].
Proof.
  intros H. unfold AudioUtils.save_audio. rewrite H.
  cbn. now rewrite str_eqb_refl.
Qed.

Lemma failed_read_leaves_an_empty_file_witness :
  snd (AudioUtils.save_audio (AudioUtils.host_of true AudioUtils.echo)
         [(lit "out.mp3", [x49; x44; x33])]
         (AudioUtils.FileLike (AudioUtils.BrokenStream timed_out))
         (Some (lit "out.mp3"))) = None
  /\ lookup (fst (AudioUtils.save_audio (AudioUtils.host_of true AudioUtils.echo)
                    [(lit "out.mp3", [x49; x44; x33])]
                    (AudioUtils.FileLike (AudioUtils.BrokenStream timed_out))
                    (Some (lit "out.mp3"))))
       (lit "out.mp3") = Some [].
Proof.
  apply (failed_read_leaves_an_empty_file
           (AudioUtils.host_of true AudioUtils.echo)
           [(lit "out.mp3", [x49; x44; x33])] timed_out (lit "out.mp3")).
  reflexivity.
Defined.

(** X28.  [play_audio] removes the temporary file it writes, whether the
    audio could be decoded and played or not, provided the file can be
    unlinked; it reports success only when both decoding and playing
    succeeded. *)
Theorem play_audio_removes_its_file
  (host : AudioUtils.Host) (files : list (str * bytes)) (audio_data : bytes)
  (stem : str) :
  nonempty audio_data = true ->
  AudioUtils.PYDUB_AVAILABLE host = true ->
  AudioUtils.mkstemp host = Some stem ->
  AudioUtils.can_unlink host (stem ++ lit ".mp3") = true ->
  AudioUtils.play_audio host files audio_data
  = (delete files (stem ++ lit ".mp3"),
     AudioUtils.from_file host audio_data && AudioUtils.play host audio_data)
  /\ lookup (fst (AudioUtils.play_audio host files audio_data))
       (stem ++ lit ".mp3") = None.
Proof.
  intros Hne Hpy Htmp Hrm.
  assert (E : AudioUtils.play_audio host files audio_data
              = (delete files (stem ++ lit ".mp3"),
                 AudioUtils.from_file host audio_data
                 && AudioUtils.play host audio_data)).
  { unfold AudioUtils.play_audio, AudioUtils.write.
    destruct audio_data as [| b d]; [discriminate |].
    rewrite Hpy, Htmp. cbn [negb lookup delete].
    rewrite str_eqb_refl, Hrm, delete_delete.
    assert (T : truthy (stem ++ lit ".mp3") = true) by now destruct stem.
    rewrite T. reflexivity. }
  split; [exact E |]. rewrite E. apply lookup_delete.
Qed.

Lemma play_audio_removes_its_file_witness :
  AudioUtils.play_audio (AudioUtils.host_of true AudioUtils.echo)
    [(lit "keep.mp3", [x41])] [x49; x44; x33]
  = (delete [(lit "keep.mp3", [x41])] (lit "/tmp/tmpq7" ++ lit ".mp3"),
     AudioUtils.from_file (AudioUtils.host_of true AudioUtils.echo)
       [x49; x44; x33]
     && AudioUtils.play (AudioUtils.host_of true AudioUtils.echo)
          [x49; x44; x33])
  /\ lookup (fst (AudioUtils.play_audio (AudioUtils.host_of true AudioUtils.echo)
                    [(lit "keep.mp3", [x41])] [x49; x44; x33]))
       (lit "/tmp/tmpq7" ++ lit ".mp3") = None.
Proof.
  apply (play_audio_removes_its_file (AudioUtils.host_of true AudioUtils.echo)
           [(lit "keep.mp3", [x41])] [x49; x44; x33] (lit "/tmp/tmpq7"));
    reflexivity.
Defined.


(** X30.  With the [murf] package installed, a missing Murf api key (none in
    the environment, or empty ones) does not stop the start-up when
    [GEMINI_API_KEY] is set: the module-level [murf_client] is [None]. *)
Theorem missing_murf_key_is_not_fatal
  (host : AudioUtils.Host) (env : AudioUtils.Env) :
  AudioUtils.MURF_AVAILABLE host = true ->
  truthy_opt (AudioUtils.GEMINI_API_KEY env) = true ->
  truthy_opt (AudioUtils.MURF_API_KEY env) = false ->
  truthy_opt (AudioUtils.MURFAI_API_KEY env) = false ->
  AudioUtils.startup host env = inr None.
Proof.
  intros Hm Hg H1 H2.
  unfold AudioUtils.startup, AudioUtils.init, AudioUtils.or_.
  rewrite Hm, Hg. cbn [truthy_opt negb]. now rewrite H1, H2.
Qed.

Lemma missing_murf_key_is_not_fatal_witness :
  AudioUtils.startup (AudioUtils.host_of true AudioUtils.echo)
    (AudioUtils.env_of None (Some []) (Some (lit "g-key")))
  = inr None.
Proof.
  apply (missing_murf_key_is_not_fatal
           (AudioUtils.host_of true AudioUtils.echo)
           (AudioUtils.env_of None (Some []) (Some (lit "g-key"))));
    reflexivity.
Defined.
